(** * slowpoke: the connection / timer state machine of [src/loop.cc]

    A shallow embedding of the reactor callbacks of the slowpoke server
    ([OnAccept], [OnRead], [OnEvent], [Reset], [CloseAllSockets]) together
    with the two classes they work on ([GlobalState] and [Socket]).

    Conventions of the embedding.
    - The build that is modelled is the default one: [DEBUG] is not defined
      (the [#else] branch of [OnRead] is compiled) and [NDEBUG] is not
      defined (every [assert] is checked and aborts the process on failure).
    - [int] is a 32-bit two's complement integer held in a [Z]; signed
      overflow is undefined behaviour in C++ and is reported as a fault.
      [time_t] and [suseconds_t] are 64-bit and are held in a [Z].
    - Everything a callback obtains from its environment is an argument of
      the callback: the address returned by [new], the file descriptor, the
      values stored by [gettimeofday], the numbers drawn from the random
      distributions and the number of bytes returned by [bufferevent_read].
    - Everything a callback does to its environment is appended to a trace
      of effects: text queued on a bufferevent, text written to [std::cout],
      a bufferevent being freed, the reset timer being added or freed.
    - libevent's allocators ([bufferevent_socket_new], [evtimer_new]) are
      taken to succeed. *)

From Stdlib Require Import ZArith Lia Ascii String.
From Stdlib.Strings Require Import Byte.
From stdpp Require Import base tactics option list gmap.

Local Open Scope Z_scope.

(** ** Faults and the result monad *)

Inductive fault : Type :=
  | AssertionFailed   (* an [assert] failed: [abort()] *)
  | SignedOverflow    (* [int] arithmetic left the range of [int] *)
  | InvalidPointer    (* a [Socket*] that is not a live object was used *)
  | OutOfFuel.        (* a [while] loop did not finish within the fuel *)

Inductive result (A : Type) : Type :=
  | Ok (a : A)
  | Fault (f : fault).
Arguments Ok {A} a.
Arguments Fault {A} f.

#[global] Instance result_ret : MRet result := fun A a => Ok a.
#[global] Instance result_bind : MBind result := fun A B k m =>
  match m with
  | Ok a => k a
  | Fault f => Fault f
  end.

(** [while (cond) body], bounded by [fuel] iterations. *)
Fixpoint while {S : Type} (fuel : nat) (cond : S -> bool)
    (body : S -> result S) (s : S) : result S :=
  if cond s then
    match fuel with
    | O => Fault OutOfFuel
    | Datatypes.S n => s' ← body s; while n cond body s'
    end
  else Ok s.

(** ** [int] *)

Definition INT_MAX : Z := 2147483647.

(** ** [printf] conversions used by the status line *)

Definition LF : string := String (ascii_of_nat 10) EmptyString.

Definition digit_char (d : Z) : ascii := ascii_of_nat (48 + Z.to_nat d).
Definition digit_val (c : ascii) : Z := Z.of_nat (nat_of_ascii c) - 48.
Definition is_digit (c : ascii) : Prop := 0 <= digit_val c <= 9.

(** The decimal digits of a non-negative number, most significant first,
    in front of [acc]; [fuel] bounds the number of digits. *)
Fixpoint udigits (fuel : nat) (n : Z) (acc : string) : string :=
  match fuel with
  | O => acc
  | S f =>
      let acc' := String (digit_char (n mod 10)) acc in
      if n / 10 =? 0 then acc' else udigits f (n / 10) acc'
  end.

(** A number has no more decimal digits than binary ones. *)
Definition udec (n : Z) : string :=
  udigits (S (Z.to_nat (Z.log2 n))) n EmptyString.

Fixpoint zeros (k : nat) : string :=
  match k with
  | O => EmptyString
  | S k' => String "0" (zeros k')
  end.

(** [%d] *)
Definition fmt_d (n : Z) : string :=
  if n <? 0 then String "-" (udec (- n)) else udec n.

(** [%06d]: zero padding goes between the sign and the digits. *)
Definition fmt_06d (n : Z) : string :=
  if n <? 0
  then String "-" (zeros (5 - String.length (udec (- n))) ++ udec (- n))
  else zeros (6 - String.length (udec n)) ++ udec n.

(** The value denoted by a string of decimal digits. *)
Fixpoint dec_value (s : string) : Z :=
  match s with
  | EmptyString => 0
  | String c s' => digit_val c * 10 ^ Z.of_nat (String.length s') + dec_value s'
  end.

Fixpoint all_digits (s : string) : Prop :=
  match s with
  | EmptyString => True
  | String c s' => is_digit c /\ all_digits s'
  end.

(** ["%d.%06d %d %d\n"] *)
Definition status_line (sec usec score max_score : Z) : string :=
  (fmt_d sec ++ "." ++ fmt_06d usec ++ " " ++ fmt_d score ++ " "
     ++ fmt_d max_score ++ LF)%string.

(** [score << " / " << max_score << std::endl] *)
Definition result_line (score max_score : Z) : string :=
  (fmt_d score ++ " / " ++ fmt_d max_score ++ LF)%string.

(** ** [timeval] *)

Record timeval : Type := mk_timeval { tv_sec : Z; tv_usec : Z }.

(** What [gettimeofday] stores: microseconds in [0, 1000000). *)
Definition wf_timeval (tv : timeval) : Prop := 0 <= tv_usec tv < 1000000.

(** A point in time as a number of microseconds. *)
Definition micros (tv : timeval) : Z := tv_sec tv * 1000000 + tv_usec tv.

(** ** The two classes *)

(** The address of a heap-allocated [Socket]. *)
Definition SocketPtr : Type := positive.

(** A file descriptor; a bufferevent is identified by the descriptor it
    wraps ([bufferevent_socket_new(base, fd, BEV_OPT_CLOSE_ON_FREE)]). *)
Definition evutil_socket_t : Type := Z.

(** The timer event behind [reset_timer], with the timeout it was added
    with. *)
Record event : Type := mk_event { ev_timeout : timeval }.

(** [struct GlobalState] (the [event_base*] is an opaque handle and is left
    out). *)
Record GlobalState : Type := mk_GlobalState {
  max_seconds : Z;
  max_before_reset : Z;
  score : Z;
  max_score : Z;
  reset_timer : option event;        (* [None] is [nullptr] *)
  sockets : gset SocketPtr
}.

(** [class Socket]; [state_] points to the one [GlobalState]. *)
Record Socket : Type := mk_Socket {
  next_ : timeval;
  buf_ : evutil_socket_t
}.

Inductive effect : Type :=
  | EWrite (fd : evutil_socket_t) (text : string)  (* [evbuffer_add_printf] *)
  | EStdout (text : string)                        (* [std::cout << ...] *)
  | EDelete (p : SocketPtr) (fd : evutil_socket_t) (* [delete p]: [bufferevent_free] *)
  | ETimerAdd (tv : timeval)                       (* [evtimer_new]; [evtimer_add] *)
  | ETimerFree (ev : option event).                (* [event_free] *)

(** The state of the process: the [GlobalState] object, the live [Socket]
    objects and the effects performed so far. *)
Record World : Type := mk_World {
  state : GlobalState;
  heap : gmap SocketPtr Socket;
  trace : list effect
}.

Definition set_score (v : Z) (g : GlobalState) : GlobalState :=
  mk_GlobalState (max_seconds g) (max_before_reset g) v (max_score g)
                 (reset_timer g) (sockets g).
Definition set_max_score (v : Z) (g : GlobalState) : GlobalState :=
  mk_GlobalState (max_seconds g) (max_before_reset g) (score g) v
                 (reset_timer g) (sockets g).
Definition set_reset_timer (v : option event) (g : GlobalState) : GlobalState :=
  mk_GlobalState (max_seconds g) (max_before_reset g) (score g) (max_score g)
                 v (sockets g).
Definition set_sockets (v : gset SocketPtr) (g : GlobalState) : GlobalState :=
  mk_GlobalState (max_seconds g) (max_before_reset g) (score g) (max_score g)
                 (reset_timer g) v.

Definition with_state (f : GlobalState -> GlobalState) (w : World) : World :=
  mk_World (f (state w)) (heap w) (trace w).
Definition with_heap (f : gmap SocketPtr Socket -> gmap SocketPtr Socket)
    (w : World) : World :=
  mk_World (state w) (f (heap w)) (trace w).
Definition emit (e : effect) (w : World) : World :=
  mk_World (state w) (heap w) (trace w ++ [e]).

(** The constructor of [GlobalState]. *)
Definition GlobalState_new (max_s max_br : Z) : GlobalState :=
  mk_GlobalState max_s max_br 0 0 None ∅.

(** ** [GlobalState] methods *)

(** [score++; max_score = std::max(score, max_score);] *)
Definition IncreaseScore (g : GlobalState) : result GlobalState :=
  if score g <? INT_MAX then
    let g1 := set_score (score g + 1) g in
    Ok (set_max_score (Z.max (score g1) (max_score g1)) g1)
  else Fault SignedOverflow.

(** [std::cout << score << " / " << max_score << std::endl; score = 0;] *)
Definition ResetAndPrintScore (w : World) : World :=
  let w1 := emit (EStdout (result_line (score (state w)) (max_score (state w)))) w in
  with_state (set_score 0) w1.

(** ** [Socket] methods *)

(** What [UpdateTimeout] obtains from its environment: the time stored by
    [gettimeofday] and the two numbers drawn from [rand_engine]. *)
Record draw : Type := mk_draw { d_now : timeval; d_sec : Z; d_usec : Z }.

(** [std::uniform_int_distribution<int>(a, b)] produces a value in [a, b]. *)
Definition uniform_int_distribution (a b x : Z) : Prop := a <= x <= b.
Definition seconds_dist (g : GlobalState) (x : Z) : Prop :=
  uniform_int_distribution 0 (max_seconds g - 1) x.
Definition useconds_dist (x : Z) : Prop :=
  uniform_int_distribution 0 999999 x.
Definition draw_ok (g : GlobalState) (d : draw) : Prop :=
  wf_timeval (d_now d) /\ seconds_dist g (d_sec d) /\ useconds_dist (d_usec d).

(** [~Socket()]: [state_->sockets.erase(this); bufferevent_free(buf_);],
    followed by the release of the object. *)
Definition Socket_delete (p : SocketPtr) (w : World) : result World :=
  match heap w !! p with
  | None => Fault InvalidPointer
  | Some s =>
      let w1 := with_state (fun g => set_sockets (sockets g ∖ {[p]}) g) w in
      let w2 := emit (EDelete p (buf_ s)) w1 in
      Ok (with_heap (delete p) w2)
  end.

(** [bool IsReady() const], [tv] being the time stored by [gettimeofday]. *)
Definition IsReady (s : Socket) (tv : timeval) : bool :=
  if tv_sec tv =? tv_sec (next_ s)
  then tv_usec tv >=? tv_usec (next_ s)
  else tv_sec tv >? tv_sec (next_ s).

(** [while (next_.tv_usec >= 1000000) { next_.tv_usec -= 1000000; next_.tv_sec++; }] *)
Definition carry (fuel : nat) (tv : timeval) : result timeval :=
  while fuel
    (fun tv => tv_usec tv >=? 1000000)
    (fun tv => Ok (mk_timeval (tv_sec tv + 1) (tv_usec tv - 1000000)))
    tv.

(** [void UpdateTimeout()] *)
Definition UpdateTimeout (fuel : nat) (p : SocketPtr) (d : draw) (w : World)
    : result World :=
  match heap w !! p with
  | None => Fault InvalidPointer
  | Some s =>
      let next0 := d_now d in
      let sec := d_sec d in
      let usec := d_usec d in
      let next1 := mk_timeval (tv_sec next0) (tv_usec next0 + usec) in
      next2 ← carry fuel next1;
      let next3 := mk_timeval (tv_sec next2 + sec) (tv_usec next2) in
      let w1 := with_heap (insert p (mk_Socket next3 (buf_ s))) w in
      Ok (emit (EWrite (buf_ s)
                  (status_line sec usec (score (state w)) (max_score (state w))))
               w1)
  end.

(** [new Socket(state, fd)] returning the address [p]; [next_] is left
    uninitialised by the constructor and is written by [Start] before it is
    ever read. *)
Definition Socket_new (p : SocketPtr) (fd : evutil_socket_t) (w : World) : World :=
  with_heap (insert p (mk_Socket (mk_timeval 0 0) fd)) w.

(** [void Start()] *)
Definition Start (fuel : nat) (p : SocketPtr) (d : draw) (w : World)
    : result World :=
  w1 ← UpdateTimeout fuel p d w;
  Ok (with_state (fun g => set_sockets ({[p]} ∪ sockets g) g) w1).

(** [GlobalState state(timeout, max_timeout, base)] in [RunLoop], before
    [event_base_dispatch]. *)
Definition initial (timeout max_timeout : Z) : World :=
  mk_World (GlobalState_new timeout max_timeout) ∅ [].

(** ** The callbacks *)

(** [BEV_EVENT_EOF] and [BEV_EVENT_ERROR] of libevent's [bufferevent.h]. *)
Definition BEV_EVENT_EOF : Z := 16.
Definition BEV_EVENT_ERROR : Z := 32.

Section Callbacks.

(** [std::unordered_set::begin()]: some element of a non-empty set; which
    one depends on the hash layout. *)
Variable begin : gset SocketPtr -> SocketPtr.

(** [while (!state->sockets.empty()) { auto it = state->sockets.begin(); delete *it; }] *)
Definition close_loop (fuel : nat) (w : World) : result World :=
  while fuel
    (fun w => negb (bool_decide (sockets (state w) = ∅)))
    (fun w => Socket_delete (begin (sockets (state w))) w)
    w.

(** [void CloseAllSockets(GlobalState *state)] *)
Definition CloseAllSockets (fuel : nat) (w : World) : result World :=
  w1 ← close_loop fuel w;
  let w2 := ResetAndPrintScore w1 in
  let w3 := emit (ETimerFree (reset_timer (state w2))) w2 in
  Ok (with_state (set_reset_timer None) w3).

(** [void Reset(evutil_socket_t, short, void *ctx)]: the timer callback. *)
Definition Reset (fuel : nat) (w : World) : result World :=
  CloseAllSockets fuel w.

(** [void OnRead(bufferevent *bev, void *ctx)]; [bytes_read] is what
    [bufferevent_read] returned, [tv] what [gettimeofday] stored in
    [IsReady], [d] what [UpdateTimeout] obtained. *)
Definition OnRead (fuel : nat) (p : SocketPtr) (bytes_read : N)
    (tv : timeval) (d : draw) (w : World) : result World :=
  match heap w !! p with
  | None => Fault InvalidPointer
  | Some sock =>
      if (0 <? bytes_read)%N then
        if IsReady sock tv then
          g ← IncreaseScore (state w);
          UpdateTimeout fuel p d (with_state (fun _ => g) w)
        else CloseAllSockets fuel w
      else Fault AssertionFailed
  end.

(** [void OnEvent(bufferevent *, short events, void *ctx)] *)
Definition OnEvent (p : SocketPtr) (events : Z) (w : World) : result World :=
  if Z.land events (Z.lor BEV_EVENT_ERROR BEV_EVENT_EOF) =? 0
  then Ok w
  else Socket_delete p w.

(** [void OnAccept(evconnlistener *, evutil_socket_t fd, ...)]; [p] is the
    address returned by [new Socket]. *)
Definition OnAccept (fuel : nat) (p : SocketPtr) (fd : evutil_socket_t)
    (d : draw) (w : World) : result World :=
  let w1 :=
    match reset_timer (state w) with
    | None =>
        let tv := mk_timeval (max_before_reset (state w)) 0 in
        emit (ETimerAdd tv)
             (with_state (set_reset_timer (Some (mk_event tv))) w)
    | Some _ => w
    end in
  Start fuel p d (Socket_new p fd w1).

(** ** The reactor

    One [input] is one callback that libevent runs, with everything the
    callback obtains from its environment. *)

Inductive input : Type :=
  | Accept (p : SocketPtr) (fd : evutil_socket_t) (d : draw)
  | Readable (p : SocketPtr) (bytes_read : N) (tv : timeval) (d : draw)
  | BevEvent (p : SocketPtr) (events : Z)
  | TimerExpired.

(** libevent runs a bufferevent callback only for a bufferevent that has not
    been freed, and the timer callback only for a timer that was added;
    [new] returns an address that is not the address of a live object. *)
Definition enabled (w : World) (i : input) : Prop :=
  match i with
  | Accept p _ _ => heap w !! p = None
  | Readable p _ _ _ => is_Some (heap w !! p)
  | BevEvent p _ => is_Some (heap w !! p)
  | TimerExpired => is_Some (reset_timer (state w))
  end.

Definition dispatch (fuel : nat) (i : input) (w : World) : result World :=
  match i with
  | Accept p fd d => OnAccept fuel p fd d w
  | Readable p n tv d => OnRead fuel p n tv d w
  | BevEvent p events => OnEvent p events w
  | TimerExpired => Reset fuel w
  end.

(** Whether the callback for [i], run in [w], reaches [CloseAllSockets]:
    the timer callback always does, the read callback does when the socket
    is not ready. *)
Definition is_reset (w : World) (i : input) : bool :=
  match i with
  | TimerExpired => true
  | Readable p n tv _ =>
      match heap w !! p with
      | Some sock => (0 <? n)%N && negb (IsReady sock tv)
      | None => false
      end
  | _ => false
  end.

Definition is_accept (i : input) : bool :=
  match i with
  | Accept _ _ _ => true
  | _ => false
  end.

(** One callback that runs to completion. *)
Definition step (w : World) (i : input) (w' : World) : Prop :=
  enabled w i /\ exists fuel, dispatch fuel i w = Ok w'.

(** The states of the process between two callbacks. *)
Inductive reachable (timeout max_timeout : Z) : World -> Prop :=
  | reachable_initial : reachable timeout max_timeout (initial timeout max_timeout)
  | reachable_step w i w' :
      reachable timeout max_timeout w -> step w i w' ->
      reachable timeout max_timeout w'.

(** The same, together with the number of connections accepted since the
    last reset (or since the start of the process). *)
Inductive reachable_counting (timeout max_timeout : Z) : World -> nat -> Prop :=
  | counting_initial :
      reachable_counting timeout max_timeout (initial timeout max_timeout) 0
  | counting_step w k i w' :
      reachable_counting timeout max_timeout w k -> step w i w' ->
      reachable_counting timeout max_timeout w'
        (if is_reset w i then 0%nat
         else if is_accept i then S k else k).

(** A stretch of an epoch: callbacks none of which is a reset. *)
Inductive within_epoch : World -> World -> Prop :=
  | within_epoch_refl w : within_epoch w w
  | within_epoch_step w1 w2 i w3 :
      within_epoch w1 w2 -> is_reset w2 i = false -> step w2 i w3 ->
      within_epoch w1 w3.

End Callbacks.

(** The descriptor behind the socket at [p]. *)
Definition fd_at (h : gmap SocketPtr Socket) (p : SocketPtr) : evutil_socket_t :=
  match h !! p with
  | Some s => buf_ s
  | None => 0
  end.

(** The effects of deleting the sockets [ps], in this order, [h] being the
    heap before the first deletion. *)
Definition deletions (h : gmap SocketPtr Socket) (ps : list SocketPtr) : list effect :=
  map (fun p => EDelete p (fd_at h p)) ps.

(** The text queued on bufferevents, and the text written to [std::cout]. *)
Definition written (t : list effect) : list (evutil_socket_t * string) :=
  omap (fun e => match e with EWrite fd s => Some (fd, s) | _ => None end) t.
Definition stdout (t : list effect) : list string :=
  omap (fun e => match e with EStdout s => Some s | _ => None end) t.

(** One possible [begin]: the first element of the enumeration of the set. *)
Definition first_element (X : gset SocketPtr) : SocketPtr :=
  default 1%positive (head (elements X)).

(** Between two callbacks the set [sockets] holds exactly the addresses of
    the live [Socket] objects. *)
Definition wf_world (w : World) : Prop := dom (heap w) = sockets (state w).

(** The [GlobalState] after the first lines of [OnAccept]. *)
Definition arm_if_absent (g : GlobalState) : GlobalState :=
  match reset_timer g with
  | None => set_reset_timer (Some (mk_event (mk_timeval (max_before_reset g) 0))) g
  | Some _ => g
  end.

(** ** The worlds that the callbacks leave behind

    Closed forms of the results of the callbacks; the lemmas of the second
    part show that the callbacks compute them. *)

(** After [CloseAllSockets], [ps] being the order in which [begin] handed
    out the sockets. *)
Definition after_reset (w : World) (ps : list SocketPtr) : World :=
  mk_World
    (mk_GlobalState (max_seconds (state w)) (max_before_reset (state w))
       0 (max_score (state w)) None ∅)
    ∅
    (trace w ++ deletions (heap w) ps
       ++ [EStdout (result_line (score (state w)) (max_score (state w)));
           ETimerFree (reset_timer (state w))]).

(** After the ready branch of [OnRead] on the socket [s] at [p], [nx] being
    the new value of [next_]. *)
Definition after_tick (w : World) (p : SocketPtr) (s : Socket) (nx : timeval)
    (d : draw) : World :=
  let sc := score (state w) + 1 in
  let mx := Z.max (score (state w) + 1) (max_score (state w)) in
  mk_World
    (mk_GlobalState (max_seconds (state w)) (max_before_reset (state w))
       sc mx (reset_timer (state w)) (sockets (state w)))
    (<[p := mk_Socket nx (buf_ s)]> (heap w))
    (trace w ++ [EWrite (buf_ s) (status_line (d_sec d) (d_usec d) sc mx)]).

(** After [OnAccept]. *)
Definition after_accept (w : World) (p : SocketPtr) (fd : evutil_socket_t)
    (nx : timeval) (d : draw) : World :=
  mk_World
    (set_sockets ({[p]} ∪ sockets (state w)) (arm_if_absent (state w)))
    (<[p := mk_Socket nx fd]> (heap w))
    (trace w
       ++ match reset_timer (state w) with
          | None => [ETimerAdd (mk_timeval (max_before_reset (state w)) 0)]
          | Some _ => []
          end
       ++ [EWrite fd (status_line (d_sec d) (d_usec d)
                        (score (state w)) (max_score (state w)))]).

(** After [delete p], [s] being the socket at [p]. *)
Definition after_delete (w : World) (p : SocketPtr) (s : Socket) : World :=
  mk_World (set_sockets (sockets (state w) ∖ {[p]}) (state w))
    (delete p (heap w)) (trace w ++ [EDelete p (buf_ s)]).

(** What holds between two callbacks. *)
Definition invariant (w : World) : Prop :=
  wf_world w
  /\ (sockets (state w) ≠ ∅ -> is_Some (reset_timer (state w)))
  /\ 0 <= score (state w) <= max_score (state w)
  /\ max_score (state w) <= INT_MAX.

(** ** The debug build of [OnRead]

    With [DEBUG] defined the block under [#ifdef DEBUG] replaces the
    assertion: the bytes just read are closed with a NUL and searched for
    an ['x'], which shuts the server down. *)

(** [sizeof(buf)] for [static char buf[8192]]. *)
Definition BUF_SIZE : N := 8192.

(** The C string that starts at [data]: the bytes in front of the first
    NUL. *)
Fixpoint c_str (data : list byte) : list byte :=
  match data with
  | [] => []
  | b :: rest => if Byte.eqb b x00 then [] else b :: c_str rest
  end.

(** [strstr(buf, "x") != NULL], [buf] holding [data] followed by a NUL. *)
Definition strstr_x (data : list byte) : bool :=
  existsb (Byte.eqb x78) (c_str data).

Inductive debug_result : Type :=
  | DebugOverrun                     (* [buf[8192] = '\0']: a write past [buf] *)
  | DebugBreak (r : result World)    (* [CloseAllSockets]; [event_base_loopbreak]; [return] *)
  | DebugRest (r : result World).    (* the code after [#endif] *)

Section DebugBuild.

Variable begin : gset SocketPtr -> SocketPtr.

(** [OnRead] as compiled with [DEBUG]; [data] holds the bytes that
    [bufferevent_read] copied into [buf], so [bytes_read] is its length. *)
Definition OnRead_DEBUG (fuel : nat) (p : SocketPtr) (data : list byte)
    (tv : timeval) (d : draw) (w : World) : debug_result :=
  match heap w !! p with
  | None => DebugRest (Fault InvalidPointer)
  | Some sock =>
      let bytes_read := N.of_nat (length data) in
      if (BUF_SIZE <=? bytes_read)%N then DebugOverrun
      else if strstr_x data then DebugBreak (CloseAllSockets begin fuel w)
      else
        DebugRest
          (if IsReady sock tv then
             g ← IncreaseScore (state w);
             UpdateTimeout fuel p d (with_state (fun _ => g) w)
           else CloseAllSockets begin fuel w)
  end.

End DebugBuild.

(** ** [RunLoop] *)

(** What [RunLoop] obtains from libevent at startup: whether
    [event_base_new] and [evconnlistener_new_bind] returned an object. *)
Record startup : Type := mk_startup {
  base_created : bool;
  listener_bound : bool
}.

(** [htons(port)]: the [int] is converted to [uint16_t]; the result is given
    as the two bytes of [sin_port] in memory order. *)
Definition htons (port : Z) : Z * Z :=
  let hostshort := port mod 65536 in
  (hostshort / 256, hostshort mod 256).

(** What a call of [RunLoop] has done when it is over: the text written to
    [std::cerr], the port handed to [evconnlistener_new_bind] if the call
    got that far, and either the value returned with the last state of the
    loop or the fault that stopped the process. *)
Record run_result : Type := mk_run_result {
  cerr : list string;
  sin_port : option (Z * Z);
  returned : result (Z * World)
}.

Section Loop.

Variable begin : gset SocketPtr -> SocketPtr.

(** [event_base_dispatch(base)] up to its return: libevent runs the
    callbacks for [events], one after the other. *)
Fixpoint event_base_dispatch (fuel : nat) (events : list input) (w : World)
    : result World :=
  match events with
  | [] => Ok w
  | i :: rest =>
      w' ← dispatch begin fuel i w;
      event_base_dispatch fuel rest w'
  end.

(** [int RunLoop(int port, int timeout, int max_timeout)] *)
Definition RunLoop (fuel : nat) (port timeout max_timeout : Z)
    (env : startup) (events : list input) : run_result :=
  let w := initial timeout max_timeout in
  if negb (base_created env) then
    mk_run_result [("failed to event_base_new()" ++ LF)%string] None (Ok (1, w))
  else if negb (listener_bound env) then
    mk_run_result [("failed to bind/listen on port" ++ LF)%string]
      (Some (htons port)) (Ok (1, w))
  else
    mk_run_result [] (Some (htons port))
      (w' ← event_base_dispatch fuel events w; Ok (0, w')).

(** Every callback is one that libevent can run in the state it finds. *)
Fixpoint admissible (fuel : nat) (events : list input) (w : World) : Prop :=
  match events with
  | [] => True
  | i :: rest =>
      enabled w i
      /\ match dispatch begin fuel i w with
         | Ok w' => admissible fuel rest w'
         | Fault _ => True
         end
  end.

(** ** Runs with well-formed inputs, and runs with a count of ticks *)

(** The clock and the random distributions keep their contracts. *)
Definition input_ok (w : World) (i : input) : Prop :=
  match i with
  | Accept _ _ d => draw_ok (state w) d
  | Readable _ _ tv d => wf_timeval tv /\ draw_ok (state w) d
  | _ => True
  end.

Inductive reachable_ok (timeout max_timeout : Z) : World -> Prop :=
  | ok_initial : reachable_ok timeout max_timeout (initial timeout max_timeout)
  | ok_step w i w' :
      reachable_ok timeout max_timeout w -> input_ok w i -> step begin w i w' ->
      reachable_ok timeout max_timeout w'.

(** Whether the callback for [i], run in [w], is a successful tick. *)
Definition is_tick (w : World) (i : input) : bool :=
  match i with
  | Readable p n tv _ =>
      match heap w !! p with
      | Some sock => (0 <? n)%N && IsReady sock tv
      | None => false
      end
  | _ => false
  end.

(** The states of the process together with the number of ticks since the
    last reset (or since the start). *)
Inductive reachable_ticks (timeout max_timeout : Z) : World -> nat -> Prop :=
  | ticks_initial :
      reachable_ticks timeout max_timeout (initial timeout max_timeout) 0
  | ticks_step w k i w' :
      reachable_ticks timeout max_timeout w k -> step begin w i w' ->
      reachable_ticks timeout max_timeout w'
        (if is_reset w i then 0%nat
         else if is_tick w i then S k else k).

(** The sockets whose deletion is recorded in a trace. *)
Definition deleted (t : list effect) : list SocketPtr :=
  omap (fun e => match e with EDelete p _ => Some p | _ => None end) t.

(** The states of the process together with the number of connections
    accepted since the start. *)
Inductive reachable_accepts (timeout max_timeout : Z) : World -> nat -> Prop :=
  | accepts_initial :
      reachable_accepts timeout max_timeout (initial timeout max_timeout) 0
  | accepts_step w n i w' :
      reachable_accepts timeout max_timeout w n -> step begin w i w' ->
      reachable_accepts timeout max_timeout w'
        (if is_accept i then S n else n).

End Loop.

(** ** How libevent delivers what happens on a connection

    The socket bufferevent of libevent (not part of this repository), by the
    contract of [bufferevent.h]: when the descriptor is readable libevent
    reads from it itself; it runs the read callback when data has arrived
    in the input buffer, and the event callback with [BEV_EVENT_EOF] when
    the read returned zero bytes, or with [BEV_EVENT_ERROR] when the read
    failed; in both cases [BEV_EVENT_READING] says what was being done. *)

Definition BEV_EVENT_READING : Z := 1.

Inductive recv_outcome : Type :=
  | RecvBytes (n : positive)   (* data arrived; [bufferevent_read] then yields [n] bytes *)
  | RecvZero                   (* the read returned exactly zero bytes, without an error *)
  | RecvFailed.                (* the read failed *)

Section Delivery.

Variable begin : gset SocketPtr -> SocketPtr.

Definition bufferevent_readcb (fuel : nat) (p : SocketPtr) (r : recv_outcome)
    (tv : timeval) (d : draw) (w : World) : result World :=
  match r with
  | RecvBytes n => OnRead begin fuel p (Npos n) tv d w
  | RecvZero => OnEvent p (Z.lor BEV_EVENT_READING BEV_EVENT_EOF) w
  | RecvFailed => OnEvent p (Z.lor BEV_EVENT_READING BEV_EVENT_ERROR) w
  end.

End Delivery.

(** ** A small run, used to exercise the statements below

    One client on descriptor 4 is accepted at [ex_t0] with both random
    numbers 0; a second one on descriptor 5 follows. *)

Definition ex_t0 : timeval := mk_timeval 100 5.
Definition ex_d0 : draw := mk_draw ex_t0 0 0.
Definition ex_w1 : World := after_accept (initial 1 60) 7%positive 4 ex_t0 ex_d0.
Definition ex_w2 : World := after_accept ex_w1 9%positive 5 ex_t0 ex_d0.

(** The first client has sent a byte at [ex_t0]. *)
Definition ex_w1_ticked : World :=
  after_tick ex_w1 7%positive (mk_Socket ex_t0 4) ex_t0 ex_d0.

(** A second tick, the timer, a new connection at the same address and one
    more tick: the second epoch stands at score 1 with the maximum 2. *)
Definition ex_w1_ticked2 : World :=
  after_tick ex_w1_ticked 7%positive (mk_Socket ex_t0 4) ex_t0 ex_d0.
Definition ex_idle : World := after_reset ex_w1_ticked2 [7%positive].
Definition ex_second : World := after_accept ex_idle 7%positive 4 ex_t0 ex_d0.
Definition ex_second_ticked : World :=
  after_tick ex_second 7%positive (mk_Socket ex_t0 4) ex_t0 ex_d0.

(** * Properties *)

(** ** The result monad and [while] *)

Lemma bind_Ok {A B} (m : result A) (k : A -> result B) (b : B) :
  (m ≫= k) = Ok b -> exists a, m = Ok a /\ k a = Ok b.
Proof. destruct m as [a|f]; simpl; [eauto | discriminate]. Qed.

Lemma while_false {S} fuel (cond : S -> bool) body s :
  cond s = false -> while fuel cond body s = Ok s.
Proof. intros H. destruct fuel; simpl; now rewrite H. Qed.

Lemma while_true {S} fuel (cond : S -> bool) body s :
  cond s = true ->
  while (Datatypes.S fuel) cond body s = (body s ≫= while fuel cond body).
Proof. intros H. simpl. now rewrite H. Qed.

Lemma while_mono {S} (cond : S -> bool) body n : forall m s r,
  while n cond body s = Ok r -> (n <= m)%nat -> while m cond body s = Ok r.
Proof.
  induction n as [|n IH]; intros m s r Hrun Hle; simpl in Hrun;
    destruct (cond s) eqn:E; try discriminate.
  - now rewrite while_false.
  - destruct m as [|m]; [lia|]. rewrite while_true by exact E.
    destruct (body s) as [s'|f]; simpl in *; [|discriminate].
    apply IH; [exact Hrun | lia].
  - now rewrite while_false.
Qed.

(** ** Decimal conversions *)

Lemma digit_val_char d : 0 <= d <= 9 -> digit_val (digit_char d) = d.
Proof.
  intros H. unfold digit_val, digit_char.
  rewrite nat_ascii_embedding by lia. lia.
Qed.

Lemma is_digit_char d : 0 <= d <= 9 -> is_digit (digit_char d).
Proof. intros H. unfold is_digit. rewrite digit_val_char; lia. Qed.

Lemma udigits_value fuel : forall n acc,
  0 <= n < 10 ^ Z.of_nat fuel ->
  dec_value (udigits fuel n acc)
  = n * 10 ^ Z.of_nat (String.length acc) + dec_value acc.
Proof.
  induction fuel as [|f IH]; intros n acc Hn.
  - simpl in *. assert (n = 0) by lia. subst. lia.
  - rewrite Nat2Z.inj_succ, Z.pow_succ_r in Hn by lia.
    assert (Hm : 0 <= n mod 10 <= 9) by (pose proof (Z.mod_pos_bound n 10); lia).
    cbn [udigits]. destruct (Z.eqb_spec (n / 10) 0) as [E|E].
    + cbn [dec_value]. rewrite digit_val_char by exact Hm.
      rewrite (Z.div_mod n 10) at 2 by lia. rewrite E. lia.
    + rewrite IH.
      * cbn [dec_value String.length]. rewrite digit_val_char by exact Hm.
        rewrite Nat2Z.inj_succ, Z.pow_succ_r by lia.
        rewrite (Z.div_mod n 10) at 3 by lia. ring.
      * split; [apply Z.div_pos; lia | apply Z.div_lt_upper_bound; lia].
Qed.

Lemma udigits_all_digits fuel : forall n acc,
  0 <= n -> all_digits acc -> all_digits (udigits fuel n acc).
Proof.
  induction fuel as [|f IH]; intros n acc Hn Hacc; [exact Hacc|].
  assert (Hm : 0 <= n mod 10 <= 9) by (pose proof (Z.mod_pos_bound n 10); lia).
  cbn [udigits]. destruct (n / 10 =? 0).
  - split; [now apply is_digit_char | exact Hacc].
  - apply IH; [apply Z.div_pos; lia|].
    split; [now apply is_digit_char | exact Hacc].
Qed.

Lemma udigits_length fuel : forall (k : nat) n acc,
  (1 <= k)%nat -> 0 <= n < 10 ^ Z.of_nat k ->
  (String.length (udigits fuel n acc) <= k + String.length acc)%nat.
Proof.
  induction fuel as [|f IH]; intros k n acc Hk Hn; [simpl; lia|].
  cbn [udigits]. destruct (Z.eqb_spec (n / 10) 0) as [E|E].
  - simpl. lia.
  - destruct k as [|[|k]]; [lia| |].
    + exfalso. apply E. apply Z.div_small. simpl in Hn. lia.
    + specialize (IH (S k) (n / 10) (String (digit_char (n mod 10)) acc)).
      cbn [String.length] in IH.
      rewrite Nat2Z.inj_succ, Z.pow_succ_r in Hn by lia.
      etransitivity; [apply IH|]; [lia| |lia].
      split; [apply Z.div_pos; lia | apply Z.div_lt_upper_bound; lia].
Qed.

Lemma zeros_length k s : String.length (zeros k ++ s) = (k + String.length s)%nat.
Proof. induction k as [|k IH]; simpl; [reflexivity | now rewrite IH]. Qed.

Lemma zeros_value k s : dec_value (zeros k ++ s) = dec_value s.
Proof. induction k as [|k IH]; simpl; [reflexivity | rewrite IH; reflexivity]. Qed.

Lemma zeros_all_digits k s : all_digits s -> all_digits (zeros k ++ s).
Proof.
  intros Hs. induction k as [|k IH]; simpl; [exact Hs|].
  split; [unfold is_digit; change (digit_val "0") with 0; lia | exact IH].
Qed.

Lemma udec_bound n : 0 <= n -> n < 10 ^ Z.of_nat (S (Z.to_nat (Z.log2 n))).
Proof.
  intros Hn. pose proof (Z.log2_nonneg n) as Hl.
  rewrite Nat2Z.inj_succ, Z2Nat.id by exact Hl.
  destruct (Z.eq_dec n 0) as [->|Hne]; [reflexivity|].
  pose proof (Z.log2_spec n ltac:(lia)) as [_ Hup].
  eapply Z.lt_le_trans; [exact Hup|].
  apply Z.pow_le_mono_l. lia.
Qed.

(** [%d] of a non-negative number is its decimal numeral, without a sign. *)
Lemma fmt_d_nonneg n :
  0 <= n ->
  fmt_d n = udec n /\ all_digits (fmt_d n) /\ dec_value (fmt_d n) = n.
Proof.
  intros Hn. unfold fmt_d.
  destruct (Z.ltb_spec n 0); [lia|]. unfold udec.
  split; [reflexivity|]. split.
  - apply udigits_all_digits; [lia | exact I].
  - rewrite udigits_value; [simpl; lia | split; [lia | now apply udec_bound]].
Qed.

(** [%06d] of a number of microseconds is a numeral of exactly six digits. *)
Lemma fmt_06d_usec u :
  0 <= u <= 999999 ->
  String.length (fmt_06d u) = 6%nat /\ all_digits (fmt_06d u)
  /\ dec_value (fmt_06d u) = u.
Proof.
  intros Hu. unfold fmt_06d. destruct (Z.ltb_spec u 0); [lia|].
  assert (HL : (String.length (udec u) <= 6)%nat).
  { pose proof (udigits_length (S (Z.to_nat (Z.log2 u))) 6 u EmptyString) as HL.
    change (10 ^ Z.of_nat 6) with 1000000 in HL.
    cbn [String.length] in HL. unfold udec. lia. }
  repeat split.
  - rewrite zeros_length. lia.
  - apply zeros_all_digits. apply udigits_all_digits; [lia | exact I].
  - rewrite zeros_value. unfold udec.
    rewrite udigits_value; [simpl; lia | split; [lia | apply udec_bound; lia]].
Qed.

(** ** Time *)

Lemma IsReady_micros s now :
  wf_timeval now -> wf_timeval (next_ s) ->
  IsReady s now = true <-> micros (next_ s) <= micros now.
Proof.
  unfold wf_timeval, micros, IsReady. intros Hn Hd.
  destruct (Z.eqb_spec (tv_sec now) (tv_sec (next_ s))) as [E|E].
  - rewrite Z.geb_le. lia.
  - rewrite Z.gtb_gt. lia.
Qed.

Lemma carry_at_most_once fuel tv :
  (1 <= fuel)%nat -> 0 <= tv_usec tv < 2000000 ->
  exists tv', carry fuel tv = Ok tv' /\ micros tv' = micros tv /\ wf_timeval tv'.
Proof.
  intros Hf Hu. destruct fuel as [|f]; [lia|]. unfold carry.
  destruct (tv_usec tv >=? 1000000) eqn:E.
  - rewrite while_true by exact E. cbn [mbind result_bind].
    rewrite Z.geb_le in E.
    rewrite while_false.
    + eexists; split; [reflexivity|]. unfold micros, wf_timeval; simpl. lia.
    + simpl. destruct (Z.geb_spec (tv_usec tv - 1000000) 1000000); [lia | reflexivity].
  - rewrite while_false by exact E.
    eexists; split; [reflexivity|]. split; [reflexivity|].
    unfold wf_timeval. destruct (Z.geb_spec (tv_usec tv) 1000000); [discriminate | lia].
Qed.

Lemma UpdateTimeout_spec fuel p d w s :
  heap w !! p = Some s -> (1 <= fuel)%nat ->
  wf_timeval (d_now d) -> useconds_dist (d_usec d) ->
  exists nx,
    UpdateTimeout fuel p d w
    = Ok (mk_World (state w) (<[p := mk_Socket nx (buf_ s)]> (heap w))
            (trace w ++ [EWrite (buf_ s)
               (status_line (d_sec d) (d_usec d)
                  (score (state w)) (max_score (state w)))]))
    /\ micros nx = micros (d_now d) + d_sec d * 1000000 + d_usec d
    /\ wf_timeval nx.
Proof.
  intros Hp Hf Hnow Hus. unfold UpdateTimeout. rewrite Hp.
  unfold wf_timeval, useconds_dist, uniform_int_distribution in *.
  destruct (carry_at_most_once fuel
              (mk_timeval (tv_sec (d_now d)) (tv_usec (d_now d) + d_usec d)))
    as (tv' & -> & Hm & Hwf); [exact Hf | simpl; lia |].
  cbn [mbind result_bind]. eexists; split; [reflexivity|].
  unfold micros, wf_timeval in *. simpl in *. lia.
Qed.

(** ** Deleting sockets *)

Lemma Socket_delete_spec p w s :
  heap w !! p = Some s ->
  Socket_delete p w = Ok (after_delete w p s).
Proof. intros H. unfold Socket_delete. now rewrite H. Qed.

Lemma deletions_delete h p ps :
  p ∉ ps -> deletions (delete p h) ps = deletions h ps.
Proof.
  induction ps as [|q ps IH]; intros Hp; [reflexivity|].
  apply not_elem_of_cons in Hp as [Hne Hp]. unfold deletions in *. simpl.
  rewrite IH by exact Hp. unfold fd_at.
  rewrite lookup_delete_ne by exact Hne. reflexivity.
Qed.

Lemma first_element_elem (X : gset SocketPtr) : X ≠ ∅ -> first_element X ∈ X.
Proof.
  intros HX. unfold first_element.
  destruct (elements X) as [|x l] eqn:E.
  - exfalso. apply HX. now apply leibniz_equiv, elements_empty_inv.
  - simpl. assert (Hx : x ∈ elements X) by (rewrite E; left).
    now apply elem_of_elements in Hx.
Qed.

Lemma wf_world_lookup w p :
  wf_world w -> p ∈ sockets (state w) -> is_Some (heap w !! p).
Proof. unfold wf_world. intros <- Hp. now apply elem_of_dom. Qed.

Section Teardown.

Variable begin : gset SocketPtr -> SocketPtr.
Hypothesis begin_elem : forall X : gset SocketPtr, X ≠ ∅ -> begin X ∈ X.

Lemma close_loop_empty fuel w :
  wf_world w -> sockets (state w) = ∅ ->
  close_loop begin fuel w
  = Ok (mk_World (set_sockets ∅ (state w)) ∅ (trace w ++ [])).
Proof.
  intros Hwf E. unfold close_loop.
  rewrite while_false by (now rewrite bool_decide_eq_true_2).
  unfold wf_world in Hwf. rewrite E in Hwf. apply dom_empty_inv_L in Hwf.
  destruct w as [[] h t]. simpl in *. rewrite app_nil_r. now subst.
Qed.

Lemma close_loop_spec fuel : forall w,
  wf_world w -> (size (sockets (state w)) <= fuel)%nat ->
  exists ps,
    ps ≡ₚ elements (sockets (state w))
    /\ close_loop begin fuel w
       = Ok (mk_World (set_sockets ∅ (state w)) ∅
               (trace w ++ deletions (heap w) ps)).
Proof.
  induction fuel as [|n IH]; intros w Hwf Hsz;
    destruct (decide (sockets (state w) = ∅)) as [E|E].
  1,3: exists []; rewrite E at 1; rewrite elements_empty; split;
       [reflexivity | now apply close_loop_empty].
  - exfalso. apply E. apply leibniz_equiv, size_empty_inv. lia.
  - set (p := begin (sockets (state w))).
    assert (Hp : p ∈ sockets (state w)) by now apply begin_elem.
    destruct (wf_world_lookup w p Hwf Hp) as [s Hs].
    pose proof (Socket_delete_spec p w s Hs) as Hdel.
    set (w1 := after_delete w p s) in Hdel.
    assert (Hwf1 : wf_world w1).
    { unfold wf_world, w1. simpl. rewrite dom_delete_L. now rewrite Hwf. }
    assert (Hsz1 : (size (sockets (state w1)) <= n)%nat).
    { unfold w1; simpl.
      pose proof (size_difference (sockets (state w)) {[p]}) as Hd.
      rewrite size_singleton in Hd.
      assert (size (sockets (state w)) ≠ 0%nat).
      { intros Hz. apply E. now apply leibniz_equiv, size_empty_inv. }
      rewrite Hd by (now apply singleton_subseteq_l). lia. }
    destruct (IH w1 Hwf1 Hsz1) as (ps & Hperm & Hrun).
    assert (Hnotin : p ∉ ps).
    { rewrite Hperm. unfold w1; simpl. rewrite elem_of_elements.
      rewrite not_elem_of_difference. right. now apply elem_of_singleton. }
    exists (p :: ps). split.
    + rewrite Hperm. unfold w1; simpl.
      rewrite <- elements_union_singleton
        by (rewrite not_elem_of_difference; right; now apply elem_of_singleton).
      f_equiv. symmetry. apply leibniz_equiv_iff.
      rewrite <- union_difference_singleton_L; [reflexivity | exact Hp].
    + unfold close_loop in *.
      rewrite while_true by (now rewrite bool_decide_eq_false_2).
      fold p. rewrite Hdel. cbn [mbind result_bind]. rewrite Hrun.
      unfold w1, after_delete. cbn [heap state trace].
      change (deletions (heap w) (p :: ps))
        with (EDelete p (fd_at (heap w) p) :: deletions (heap w) ps).
      unfold fd_at at 1. rewrite Hs.
      rewrite deletions_delete by exact Hnotin.
      rewrite <- app_assoc. reflexivity.
Qed.

Lemma CloseAllSockets_spec fuel w :
  wf_world w -> (size (sockets (state w)) <= fuel)%nat ->
  exists ps,
    ps ≡ₚ elements (sockets (state w))
    /\ CloseAllSockets begin fuel w = Ok (after_reset w ps).
Proof.
  intros Hwf Hsz. destruct (close_loop_spec fuel w Hwf Hsz) as (ps & Hperm & Hrun).
  exists ps. split; [exact Hperm|]. unfold CloseAllSockets. rewrite Hrun.
  cbn [mbind result_bind].
  unfold after_reset, ResetAndPrintScore, emit, with_state. simpl.
  now rewrite <- !app_assoc.
Qed.

Lemma CloseAllSockets_inv fuel w w' :
  wf_world w -> CloseAllSockets begin fuel w = Ok w' ->
  exists ps, ps ≡ₚ elements (sockets (state w)) /\ w' = after_reset w ps.
Proof.
  intros Hwf Hrun.
  set (m := Nat.max fuel (size (sockets (state w)))).
  destruct (CloseAllSockets_spec m w Hwf) as (ps & Hperm & Hm); [lia|].
  exists ps. split; [exact Hperm|].
  unfold CloseAllSockets in Hrun, Hm.
  apply bind_Ok in Hrun as (w1 & Hloop & Hrest).
  unfold close_loop in *.
  rewrite (while_mono _ _ fuel m w w1 Hloop) in Hm by lia.
  cbn [mbind result_bind] in Hm. congruence.
Qed.

End Teardown.

(** ** What a callback that returns has done *)

Lemma UpdateTimeout_inv fuel p d w w' :
  UpdateTimeout fuel p d w = Ok w' ->
  exists s nx,
    heap w !! p = Some s
    /\ w' = mk_World (state w) (<[p := mk_Socket nx (buf_ s)]> (heap w))
              (trace w ++ [EWrite (buf_ s)
                 (status_line (d_sec d) (d_usec d)
                    (score (state w)) (max_score (state w)))]).
Proof.
  unfold UpdateTimeout. intros H. destruct (heap w !! p) as [s|]; [|discriminate].
  apply bind_Ok in H as (tv & _ & H). injection H as <-.
  now exists s, (mk_timeval (tv_sec tv + d_sec d) (tv_usec tv)).
Qed.

Lemma OnAccept_inv fuel p fd d w w' :
  OnAccept fuel p fd d w = Ok w' -> exists nx, w' = after_accept w p fd nx d.
Proof.
  unfold OnAccept, Start. intros H.
  apply bind_Ok in H as (w1 & Hup & H). injection H as <-.
  apply UpdateTimeout_inv in Hup as (s & nx & Hs & ->).
  unfold Socket_new, with_heap in Hs. cbn [heap] in Hs.
  rewrite lookup_insert_eq in Hs. injection Hs as <-.
  exists nx. unfold after_accept, arm_if_absent.
  destruct (reset_timer (state w)) eqn:E; simpl;
    rewrite insert_insert_eq; [reflexivity|].
  now rewrite <- app_assoc.
Qed.

Lemma IncreaseScore_inv g g' :
  IncreaseScore g = Ok g' ->
  score g < INT_MAX
  /\ g' = mk_GlobalState (max_seconds g) (max_before_reset g) (score g + 1)
            (Z.max (score g + 1) (max_score g)) (reset_timer g) (sockets g).
Proof.
  unfold IncreaseScore. destruct (Z.ltb_spec (score g) INT_MAX) as [Hlt|Hge];
    [|discriminate].
  intros H. injection H as <-. now split.
Qed.

Lemma OnEvent_inv p events w w' :
  is_Some (heap w !! p) -> OnEvent p events w = Ok w' ->
  w' = w \/ exists s, heap w !! p = Some s /\ w' = after_delete w p s.
Proof.
  intros [s Hs] H. unfold OnEvent in H.
  destruct (Z.land events _ =? 0).
  - left. congruence.
  - right. exists s. split; [exact Hs|].
    rewrite (Socket_delete_spec p w s Hs) in H. congruence.
Qed.

Section Reactor.

Variable begin : gset SocketPtr -> SocketPtr.
Hypothesis begin_elem : forall X : gset SocketPtr, X ≠ ∅ -> begin X ∈ X.

Lemma OnRead_ready_spec fuel p n tv d w sock :
  heap w !! p = Some sock -> (0 < n)%N -> IsReady sock tv = true ->
  score (state w) < INT_MAX -> (1 <= fuel)%nat ->
  wf_timeval (d_now d) -> useconds_dist (d_usec d) ->
  exists nx,
    OnRead begin fuel p n tv d w = Ok (after_tick w p sock nx d)
    /\ micros nx = micros (d_now d) + d_sec d * 1000000 + d_usec d
    /\ wf_timeval nx.
Proof.
  intros Hp Hn Hready Hsc Hf Hnow Hus. unfold OnRead. rewrite Hp, Hready.
  apply N.ltb_lt in Hn as ->. unfold IncreaseScore.
  apply Z.ltb_lt in Hsc as ->. cbn [mbind result_bind].
  destruct (UpdateTimeout_spec fuel p d
              (with_state
                 (fun _ =>
                    set_max_score
                      (Z.max (score (set_score (score (state w) + 1) (state w)))
                             (max_score (set_score (score (state w) + 1) (state w))))
                      (set_score (score (state w) + 1) (state w))) w)
              sock Hp Hf Hnow Hus) as (nx & Hrun & Hm & Hwf).
  exists nx. split; [|now split]. rewrite Hrun. reflexivity.
Qed.

Lemma OnRead_ready_inv fuel p n tv d w w' sock :
  heap w !! p = Some sock -> IsReady sock tv = true ->
  OnRead begin fuel p n tv d w = Ok w' ->
  (0 < n)%N /\ score (state w) < INT_MAX
  /\ exists nx, w' = after_tick w p sock nx d.
Proof.
  intros Hp Hready. unfold OnRead. rewrite Hp, Hready.
  destruct (N.ltb_spec 0 n) as [Hn|Hn]; [|discriminate]. intros H.
  apply bind_Ok in H as (g & Hinc & Hup).
  apply IncreaseScore_inv in Hinc as [Hsc ->].
  apply UpdateTimeout_inv in Hup as (s & nx & Hs & ->).
  cbn [heap with_state] in Hs. rewrite Hp in Hs. injection Hs as <-.
  split; [exact Hn|]. split; [exact Hsc|]. now exists nx.
Qed.

Lemma OnRead_early fuel p n tv d w sock :
  heap w !! p = Some sock -> (0 < n)%N -> IsReady sock tv = false ->
  OnRead begin fuel p n tv d w = CloseAllSockets begin fuel w.
Proof.
  intros Hp Hn Hready. unfold OnRead. rewrite Hp, Hready.
  now apply N.ltb_lt in Hn as ->.
Qed.

Lemma OnRead_empty fuel p tv d w sock :
  heap w !! p = Some sock ->
  OnRead begin fuel p 0 tv d w = Fault AssertionFailed.
Proof. intros Hp. unfold OnRead. now rewrite Hp. Qed.

(** What one callback that returns has done. *)
Lemma step_inv w i w' :
  wf_world w -> step begin w i w' ->
  match i with
  | Accept p fd d => exists nx, w' = after_accept w p fd nx d
  | Readable p n tv d =>
      exists sock, heap w !! p = Some sock /\ (0 < n)%N /\
        if IsReady sock tv
        then score (state w) < INT_MAX /\ exists nx, w' = after_tick w p sock nx d
        else exists ps, ps ≡ₚ elements (sockets (state w)) /\ w' = after_reset w ps
  | BevEvent p events =>
      w' = w \/ exists s, heap w !! p = Some s /\ w' = after_delete w p s
  | TimerExpired =>
      exists ps, ps ≡ₚ elements (sockets (state w)) /\ w' = after_reset w ps
  end.
Proof.
  intros Hwf [Hen [fuel Hrun]]. destruct i as [p fd d|p n tv d|p events|];
    cbn [dispatch enabled] in *.
  - now apply OnAccept_inv in Hrun.
  - destruct Hen as [sock Hp]. exists sock. split; [exact Hp|].
    destruct (IsReady sock tv) eqn:Hready.
    + now apply (OnRead_ready_inv _ _ _ _ _ _ _ _ Hp Hready) in Hrun.
    + destruct (N.ltb_spec 0 n) as [Hn|Hn].
      * split; [exact Hn|].
        rewrite (OnRead_early _ _ _ _ _ _ _ Hp Hn Hready) in Hrun.
        now apply CloseAllSockets_inv in Hrun.
      * exfalso. unfold OnRead in Hrun. rewrite Hp in Hrun.
        apply N.ltb_ge in Hn. rewrite Hn in Hrun. discriminate.
  - exact (OnEvent_inv p events w w' Hen Hrun).
  - now apply CloseAllSockets_inv in Hrun.
Qed.

Lemma invariant_initial timeout max_timeout : invariant (initial timeout max_timeout).
Proof.
  unfold invariant, wf_world, initial, INT_MAX; simpl.
  split; [apply dom_empty_L|]. split; [intros H; now destruct H|]. lia.
Qed.

Lemma invariant_after_reset w ps : invariant w -> invariant (after_reset w ps).
Proof.
  intros (Hwf & Ht & Hs & Hm). unfold invariant, wf_world; simpl.
  split; [apply dom_empty_L|]. split; [intros H; now destruct H|]. lia.
Qed.

Lemma step_invariant w i w' : invariant w -> step begin w i w' -> invariant w'.
Proof.
  intros Hinv Hstep. pose proof Hinv as (Hwf & Ht & Hs & Hm).
  pose proof (step_inv w i w' Hwf Hstep) as Hcase.
  destruct i as [p fd d|p n tv d|p events|].
  - destruct Hcase as [nx ->]. unfold invariant, wf_world, after_accept.
    cbn [state heap set_sockets max_seconds max_before_reset score max_score
         reset_timer sockets].
    rewrite dom_insert_L, Hwf. unfold arm_if_absent.
    destruct (reset_timer (state w)) eqn:E; simpl; rewrite ?E; eauto.
  - destruct Hcase as (sock & Hp & Hn & Hcase).
    destruct (IsReady sock tv).
    + destruct Hcase as (Hsc & nx & ->). unfold invariant, wf_world, after_tick.
      simpl. rewrite dom_insert_L.
      assert (p ∈ dom (heap w)) by (apply elem_of_dom; eauto).
      split; [rewrite <- Hwf; now apply subseteq_union_1_L, singleton_subseteq_l|].
      split; [exact Ht|]. lia.
    + destruct Hcase as (ps & _ & ->). now apply invariant_after_reset.
  - destruct Hcase as [->|(s & Hp & ->)]; [exact Hinv|].
    unfold invariant, wf_world, after_delete. simpl.
    rewrite dom_delete_L, Hwf. split; [reflexivity|].
    split; [|lia]. intros Hne. apply Ht. intros E. apply Hne. rewrite E.
    apply empty_difference_L.
  - destruct Hcase as (ps & _ & ->). now apply invariant_after_reset.
Qed.

Lemma reachable_invariant timeout max_timeout w :
  reachable begin timeout max_timeout w -> invariant w.
Proof.
  induction 1 as [|w i w' _ IH Hstep]; [apply invariant_initial|].
  exact (step_invariant w i w' IH Hstep).
Qed.

(** The score, the maximum and the timer across one callback. *)
Lemma step_reset_fields w i w' :
  wf_world w -> is_reset w i = true -> step begin w i w' ->
  score (state w') = 0
  /\ max_score (state w') = max_score (state w)
  /\ reset_timer (state w') = None.
Proof.
  intros Hwf Hreset Hstep. pose proof (step_inv w i w' Hwf Hstep) as Hcase.
  destruct i as [p fd d|p n tv d|p events|]; try discriminate.
  - destruct Hcase as (sock & Hp & Hn & Hcase).
    cbn [is_reset] in Hreset. rewrite Hp in Hreset.
    destruct (IsReady sock tv);
      [now rewrite andb_false_r in Hreset|].
    now destruct Hcase as (ps & _ & ->).
  - now destruct Hcase as (ps & _ & ->).
Qed.

Lemma arm_if_absent_timer g :
  reset_timer (arm_if_absent g)
  = Some (default (mk_event (mk_timeval (max_before_reset g) 0)) (reset_timer g)).
Proof.
  unfold arm_if_absent.
  destruct (reset_timer g) eqn:E; simpl; [exact E | reflexivity].
Qed.

Lemma step_other_fields w i w' :
  wf_world w -> is_reset w i = false -> step begin w i w' ->
  ((score (state w') = score (state w)
    /\ max_score (state w') = max_score (state w))
   \/ (score (state w) < INT_MAX
       /\ score (state w') = score (state w) + 1
       /\ max_score (state w') = Z.max (score (state w) + 1) (max_score (state w))))
  /\ reset_timer (state w')
     = (if is_accept i then reset_timer (arm_if_absent (state w))
        else reset_timer (state w)).
Proof.
  intros Hwf Hreset Hstep. pose proof (step_inv w i w' Hwf Hstep) as Hcase.
  destruct i as [p fd d|p n tv d|p events|]; try discriminate.
  - destruct Hcase as [nx ->]. cbn [is_accept]. split; [left|];
      unfold after_accept, arm_if_absent; simpl;
      now destruct (reset_timer (state w)) eqn:E.
  - destruct Hcase as (sock & Hp & Hn & Hcase).
    cbn [is_reset is_accept] in *. rewrite Hp in Hreset.
    apply N.ltb_lt in Hn. rewrite Hn in Hreset.
    destruct (IsReady sock tv); [|discriminate].
    destruct Hcase as (Hsc & nx & ->). split; [right|]; now simpl.
  - cbn [is_accept].
    destruct Hcase as [->|(s & Hp & ->)]; (split; [left|]); now simpl.
Qed.

Lemma step_max_score_mono w i w' :
  wf_world w -> step begin w i w' ->
  max_score (state w) <= max_score (state w').
Proof.
  intros Hwf Hstep. destruct (is_reset w i) eqn:Hreset.
  - destruct (step_reset_fields w i w' Hwf Hreset Hstep) as (_ & -> & _). lia.
  - destruct (step_other_fields w i w' Hwf Hreset Hstep) as [[[_ ->]|(_ & _ & ->)] _];
      lia.
Qed.

Lemma within_epoch_invariant w0 w1 :
  invariant w0 -> within_epoch begin w0 w1 -> invariant w1.
Proof.
  intros H0. induction 1 as [|w1 w2 i w3 _ IH _ Hstep]; [exact H0|].
  exact (step_invariant w2 i w3 (IH H0) Hstep).
Qed.

Lemma within_epoch_max w0 w1 :
  invariant w0 -> score (state w0) = 0 -> within_epoch begin w0 w1 ->
  max_score (state w1) = Z.max (max_score (state w0)) (score (state w1)).
Proof.
  intros H0 Hz. induction 1 as [w|w1 w2 i w3 Hepoch IH Hreset Hstep].
  - destruct H0 as (_ & _ & Hs & _). lia.
  - specialize (IH H0 Hz).
    pose proof (within_epoch_invariant w1 w2 H0 Hepoch) as (Hwf & _ & Hs & _).
    destruct (step_other_fields w2 i w3 Hwf Hreset Hstep)
      as [[[-> ->]|(_ & -> & ->)] _]; lia.
Qed.

Lemma counting_reachable timeout max_timeout w k :
  reachable_counting begin timeout max_timeout w k ->
  reachable begin timeout max_timeout w.
Proof.
  induction 1 as [|w k i w' _ IH Hstep]; [apply reachable_initial|].
  exact (reachable_step begin _ _ w i w' IH Hstep).
Qed.

Lemma counting_timer timeout max_timeout w k :
  reachable_counting begin timeout max_timeout w k ->
  is_Some (reset_timer (state w)) <-> (0 < k)%nat.
Proof.
  induction 1 as [|w k i w' Hcount IH Hstep].
  - simpl. split; [intros [? ?]; discriminate | lia].
  - pose proof (reachable_invariant _ _ _
                  (counting_reachable _ _ _ _ Hcount)) as (Hwf & _).
    destruct (is_reset w i) eqn:Hreset.
    + destruct (step_reset_fields w i w' Hwf Hreset Hstep) as (_ & _ & ->).
      split; [intros [? ?]; discriminate | lia].
    + destruct (step_other_fields w i w' Hwf Hreset Hstep) as [_ ->].
      destruct (is_accept i).
      * rewrite arm_if_absent_timer. split; [lia | now eexists].
      * exact IH.
Qed.

End Reactor.

(** ** The run used as an example *)

Lemma perm_elements (ps : list SocketPtr) (X : gset SocketPtr) :
  ps ≡ₚ elements X ->
  NoDup ps /\ (forall p, p ∈ ps <-> p ∈ X) /\ length ps = size X.
Proof.
  intros Hperm. split; [|split].
  - rewrite Hperm. apply NoDup_elements.
  - intros p. rewrite Hperm. apply elem_of_elements.
  - now rewrite Hperm.
Qed.

Lemma ex_w1_accept :
  OnAccept 1 7%positive 4 ex_d0 (initial 1 60) = Ok ex_w1.
Proof. reflexivity. Qed.

Lemma ex_w2_accept : OnAccept 1 9%positive 5 ex_d0 ex_w1 = Ok ex_w2.
Proof. vm_compute. reflexivity. Qed.

Lemma ex_w1_reachable begin : reachable begin 1 60 ex_w1.
Proof.
  apply (reachable_step begin 1 60 (initial 1 60) (Accept 7%positive 4 ex_d0));
    [apply reachable_initial|].
  split; [reflexivity | exists 1%nat; exact ex_w1_accept].
Qed.

Lemma ex_w2_reachable begin : reachable begin 1 60 ex_w2.
Proof.
  apply (reachable_step begin 1 60 ex_w1 (Accept 9%positive 5 ex_d0));
    [apply ex_w1_reachable|].
  split; [reflexivity | exists 1%nat; exact ex_w2_accept].
Qed.

Lemma stdout_deletions h ps : stdout (deletions h ps) = [].
Proof. induction ps as [|p ps IH]; [reflexivity | exact IH]. Qed.

Lemma Socket_delete_effect v q s :
  heap v !! q = Some s -> q ∈ sockets (state v) ->
  exists v',
    Socket_delete q v = Ok v'
    /\ sockets (state v') = sockets (state v) ∖ {[q]}
    /\ S (size (sockets (state v'))) = size (sockets (state v))
    /\ heap v' = delete q (heap v)
    /\ trace v' = trace v ++ [EDelete q (buf_ s)]
    /\ score (state v') = score (state v)
    /\ max_score (state v') = max_score (state v)
    /\ reset_timer (state v') = reset_timer (state v).
Proof.
  intros Hq Hin. exists (after_delete v q s).
  split; [now apply Socket_delete_spec|]. unfold after_delete; simpl.
  repeat split.
  pose proof (size_difference (sockets (state v)) {[q]}) as Hd.
  rewrite size_singleton in Hd. rewrite Hd by (now apply singleton_subseteq_l).
  assert (size (sockets (state v)) ≠ 0%nat); [|lia].
  intros Hz. apply size_empty_inv in Hz. apply leibniz_equiv in Hz.
  rewrite Hz in Hin. now apply not_elem_of_empty in Hin.
Qed.

Lemma OnAccept_spec fuel p fd d w :
  (1 <= fuel)%nat -> wf_timeval (d_now d) -> useconds_dist (d_usec d) ->
  exists nx,
    OnAccept fuel p fd d w = Ok (after_accept w p fd nx d)
    /\ micros nx = micros (d_now d) + d_sec d * 1000000 + d_usec d
    /\ wf_timeval nx.
Proof.
  intros Hf Hnow Hus.
  set (w1 := match reset_timer (state w) with
             | None =>
                 emit (ETimerAdd (mk_timeval (max_before_reset (state w)) 0))
                   (with_state
                      (set_reset_timer
                         (Some (mk_event (mk_timeval (max_before_reset (state w)) 0))))
                      w)
             | Some _ => w
             end).
  destruct (UpdateTimeout_spec fuel p d (Socket_new p fd w1)
              (mk_Socket (mk_timeval 0 0) fd))
    as (nx & Hrun & Hm & Hwf); try assumption.
  { unfold Socket_new, with_heap. cbn [heap]. apply lookup_insert_eq. }
  exists nx. split; [|now split].
  unfold OnAccept, Start. fold w1. rewrite Hrun. cbn [mbind result_bind].
  unfold w1, after_accept, arm_if_absent.
  destruct (reset_timer (state w)) eqn:E; simpl;
    rewrite insert_insert_eq; [reflexivity|].
  now rewrite <- app_assoc.
Qed.

Lemma written_snoc_write t fd text :
  written (t ++ [EWrite fd text]) = written t ++ [(fd, text)].
Proof. unfold written. now rewrite omap_app. Qed.

Lemma stdout_snoc_write t fd text : stdout (t ++ [EWrite fd text]) = stdout t.
Proof. unfold stdout. rewrite omap_app. apply app_nil_r. Qed.

Lemma land_flag_nonzero events flag :
  Z.land (Z.lor BEV_EVENT_ERROR BEV_EVENT_EOF) flag = flag ->
  Z.land events flag ≠ 0 ->
  Z.land events (Z.lor BEV_EVENT_ERROR BEV_EVENT_EOF) ≠ 0.
Proof.
  intros Hflag Hne Hz. apply Hne.
  rewrite <- Hflag, Z.land_assoc, Hz. apply Z.land_0_l.
Qed.

Lemma OnEvent_closed p events w sock :
  heap w !! p = Some sock ->
  Z.land events BEV_EVENT_EOF ≠ 0 \/ Z.land events BEV_EVENT_ERROR ≠ 0 ->
  OnEvent p events w = Ok (after_delete w p sock).
Proof.
  intros Hp Hflag. unfold OnEvent.
  destruct (Z.eqb_spec (Z.land events (Z.lor BEV_EVENT_ERROR BEV_EVENT_EOF)) 0)
    as [E|E]; [|now apply Socket_delete_spec].
  exfalso. destruct Hflag as [H|H];
    (eapply land_flag_nonzero; [|exact H|exact E]); reflexivity.
Qed.

Lemma result_line_text sc mx :
  0 <= sc -> 0 <= mx ->
  result_line sc mx
  = (udec sc ++ " / " ++ udec mx ++ String "010" EmptyString)%string
  /\ (all_digits (udec sc) /\ dec_value (udec sc) = sc)
  /\ (all_digits (udec mx) /\ dec_value (udec mx) = mx).
Proof.
  intros Hsc Hmx.
  destruct (fmt_d_nonneg sc Hsc) as (Es & Ds & Vs).
  destruct (fmt_d_nonneg mx Hmx) as (Em & Dm & Vm).
  unfold result_line. rewrite Es in *. rewrite Em in *. now repeat split.
Qed.

(** * The claims *)

(** C7: for a current time and a deadline whose microsecond fields lie in
    [0, 1000000), [IsReady] returns true exactly when the current time, in
    microseconds, is at least the deadline; in particular it returns true
    when the two are equal. *)
Theorem IsReady_iff_deadline_reached (s : Socket) (now : timeval) :
  wf_timeval now -> wf_timeval (next_ s) ->
  (IsReady s now = true <-> micros (next_ s) <= micros now)
  /\ (now = next_ s -> IsReady s now = true).
Proof.
  intros Hn Hd. split; [now apply IsReady_micros|].
  intros ->. apply IsReady_micros; [exact Hd | exact Hd | lia].
Qed.

Lemma IsReady_iff_deadline_reached_witness :
  (IsReady (mk_Socket ex_t0 4) ex_t0 = true
   <-> micros (next_ (mk_Socket ex_t0 4)) <= micros ex_t0)
  /\ (ex_t0 = next_ (mk_Socket ex_t0 4) -> IsReady (mk_Socket ex_t0 4) ex_t0 = true).
Proof.
  apply (IsReady_iff_deadline_reached (mk_Socket ex_t0 4) ex_t0);
    unfold wf_timeval; simpl; lia.
Defined.

Section Claims.

Variable begin : gset SocketPtr -> SocketPtr.
Hypothesis begin_elem : forall X : gset SocketPtr, X ≠ ∅ -> begin X ∈ X.

(** C10: for every finite set of live connections the mass-teardown loop
    of [CloseAllSockets] terminates (fuel equal to the size of the set is
    enough) and deletes each connection exactly once: the deleted sockets
    [ps] are the members of the set, without repetition.  Each deletion
    removes exactly the deleted connection from the set, whose size drops
    by one, and does nothing that the reset coordinator does: it writes no
    result line and leaves the score, the maximum and the timer alone. *)
Theorem close_loop_terminates (fuel : nat) (w : World) :
  wf_world w -> (size (sockets (state w)) <= fuel)%nat ->
  exists ps w',
    close_loop begin fuel w = Ok w'
    /\ NoDup ps /\ (forall p, p ∈ ps <-> p ∈ sockets (state w))
    /\ trace w' = trace w ++ map (fun p => EDelete p (fd_at (heap w) p)) ps
    /\ stdout (trace w') = stdout (trace w)
    /\ state w' = set_sockets ∅ (state w) /\ heap w' = ∅
    /\ (forall v q s, heap v !! q = Some s -> q ∈ sockets (state v) ->
        exists v',
          Socket_delete q v = Ok v'
          /\ sockets (state v') = sockets (state v) ∖ {[q]}
          /\ S (size (sockets (state v'))) = size (sockets (state v))
          /\ heap v' = delete q (heap v)
          /\ trace v' = trace v ++ [EDelete q (buf_ s)]
          /\ score (state v') = score (state v)
          /\ max_score (state v') = max_score (state v)
          /\ reset_timer (state v') = reset_timer (state v)).
Proof.
  intros Hwf Hsz.
  destruct (close_loop_spec begin begin_elem fuel w Hwf Hsz) as (ps & Hperm & Hrun).
  destruct (perm_elements _ _ Hperm) as (Hnd & Hin & _).
  exists ps. eexists. split; [exact Hrun|]. cbn [trace state heap].
  repeat (split; [try done|]).
  - unfold stdout. rewrite omap_app. fold (stdout (deletions (heap w) ps)).
    rewrite stdout_deletions. apply app_nil_r.
  - exact Socket_delete_effect.
Qed.

(** C1: whenever the reset coordinator runs, be it from the timer callback
    or from a read that came before the deadline, it (a) deletes every
    connection of the set, each once, (b) then writes one line
    ["<score> / <max_score>"] to standard output, with the score the epoch
    ended with, (c) leaves the score at 0 and (d) frees the armed timer and
    clears [reset_timer]; the maximum is not touched.  The line is the
    unsigned decimal numeral of the score, the three characters [" / "], the
    unsigned decimal numeral of the maximum and a newline. *)
Theorem reset_coordinator_sequence (timeout max_timeout : Z) (w : World)
    (i : input) (fuel : nat) :
  reachable begin timeout max_timeout w ->
  enabled w i -> is_reset w i = true ->
  (size (sockets (state w)) <= fuel)%nat ->
  exists ps ev w',
    dispatch begin fuel i w = Ok w'
    /\ dispatch begin fuel i w = CloseAllSockets begin fuel w
    /\ NoDup ps /\ (forall p, p ∈ ps <-> p ∈ sockets (state w))
    /\ reset_timer (state w) = Some ev
    /\ trace w' = trace w
         ++ map (fun p => EDelete p (fd_at (heap w) p)) ps
         ++ [EStdout (result_line (score (state w)) (max_score (state w)));
             ETimerFree (Some ev)]
    /\ stdout (trace w')
       = stdout (trace w) ++ [result_line (score (state w)) (max_score (state w))]
    /\ sockets (state w') = ∅ /\ heap w' = ∅
    /\ score (state w') = 0
    /\ max_score (state w') = max_score (state w)
    /\ reset_timer (state w') = None
    /\ result_line (score (state w)) (max_score (state w))
       = (udec (score (state w)) ++ " / " ++ udec (max_score (state w))
            ++ String "010" EmptyString)%string
    /\ (all_digits (udec (score (state w)))
        /\ dec_value (udec (score (state w))) = score (state w))
    /\ (all_digits (udec (max_score (state w)))
        /\ dec_value (udec (max_score (state w))) = max_score (state w)).
Proof.
  intros Hreach Hen Hreset Hsz.
  pose proof (reachable_invariant begin begin_elem _ _ _ Hreach)
    as (Hwf & Ht & Hscore & _).
  destruct (result_line_text (score (state w)) (max_score (state w)))
    as (Htext & Hdsc & Hdmx); [lia | lia |].
  destruct (CloseAllSockets_spec begin begin_elem fuel w Hwf Hsz)
    as (ps & Hperm & Hrun).
  destruct (perm_elements _ _ Hperm) as (Hnd & Hin & _).
  assert (Hsame : dispatch begin fuel i w = CloseAllSockets begin fuel w
                  /\ is_Some (reset_timer (state w))).
  { destruct i as [p fd d|p n tv d|p events|]; try discriminate.
    - cbn [is_reset dispatch enabled] in *.
      destruct (heap w !! p) as [sock|] eqn:Hp; [|discriminate].
      apply andb_true_iff in Hreset as [Hn Hearly].
      apply N.ltb_lt in Hn. apply negb_true_iff in Hearly.
      split; [now apply (OnRead_early begin fuel p n tv d w sock)|].
      apply Ht. intros E. unfold wf_world in Hwf. rewrite E in Hwf.
      apply dom_empty_inv_L in Hwf. rewrite Hwf in Hp. discriminate.
    - split; [reflexivity | exact Hen]. }
  destruct Hsame as [Hsame [ev Hev]].
  exists ps, ev, (after_reset w ps). rewrite Hsame.
  split; [exact Hrun|]. split; [reflexivity|].
  unfold after_reset. cbn [trace state heap sockets score max_score reset_timer].
  rewrite Hev.
  split; [exact Hnd|]. split; [exact Hin|]. split; [reflexivity|].
  split; [reflexivity|]. split.
  { unfold stdout. rewrite !omap_app. fold (stdout (deletions (heap w) ps)).
    now rewrite stdout_deletions. }
  repeat (split; [reflexivity|]).
  split; [exact Htext|]. now split.
Qed.

(** C3: a read that arrives strictly before the deadline of its
    connection runs the reset coordinator: every connection of the set, the
    reading one and all the others, is deleted and the epoch is rotated.
    The callback returns normally, without a fault, and leaves a state from
    which the process goes on. *)
Theorem read_before_deadline_resets (timeout max_timeout : Z) (w : World)
    (p : SocketPtr) (sock : Socket) (n : N) (tv : timeval) (d : draw)
    (fuel : nat) :
  reachable begin timeout max_timeout w ->
  heap w !! p = Some sock -> (0 < n)%N ->
  wf_timeval tv -> wf_timeval (next_ sock) ->
  micros tv < micros (next_ sock) ->
  (size (sockets (state w)) <= fuel)%nat ->
  exists ps w',
    OnRead begin fuel p n tv d w = Ok w'
    /\ NoDup ps /\ (forall q, q ∈ ps <-> q ∈ sockets (state w)) /\ p ∈ ps
    /\ (forall q s, heap w !! q = Some s -> EDelete q (buf_ s) ∈ trace w')
    /\ trace w' = trace w
         ++ map (fun q => EDelete q (fd_at (heap w) q)) ps
         ++ [EStdout (result_line (score (state w)) (max_score (state w)));
             ETimerFree (reset_timer (state w))]
    /\ sockets (state w') = ∅ /\ heap w' = ∅
    /\ score (state w') = 0
    /\ max_score (state w') = max_score (state w)
    /\ reset_timer (state w') = None
    /\ reachable begin timeout max_timeout w'.
Proof.
  intros Hreach Hp Hn Htv Hnext Hlt Hsz.
  pose proof (reachable_invariant begin begin_elem _ _ _ Hreach) as (Hwf & _).
  assert (Hearly : IsReady sock tv = false).
  { destruct (IsReady sock tv) eqn:E; [|reflexivity].
    apply IsReady_micros in E; [lia | exact Htv | exact Hnext]. }
  destruct (CloseAllSockets_spec begin begin_elem fuel w Hwf Hsz)
    as (ps & Hperm & Hrun).
  destruct (perm_elements _ _ Hperm) as (Hnd & Hin & _).
  rewrite <- (OnRead_early begin fuel p n tv d w sock Hp Hn Hearly) in Hrun.
  assert (Hlive : forall q s, heap w !! q = Some s -> q ∈ ps).
  { intros q s Hq. apply Hin. unfold wf_world in Hwf. rewrite <- Hwf.
    apply elem_of_dom. now exists s. }
  exists ps, (after_reset w ps). split; [exact Hrun|].
  unfold after_reset. cbn [trace state heap sockets score max_score reset_timer].
  repeat (split; [try done|]).
  - now apply (Hlive p sock).
  - intros q s Hq. apply elem_of_app. right. apply elem_of_app. left.
    apply list_elem_of_fmap. exists q. unfold fd_at. rewrite Hq.
    split; [reflexivity | now apply (Hlive q s)].
  - apply (reachable_step begin _ _ w (Readable p n tv d)); [exact Hreach|].
    split; [now exists sock | now exists fuel].
Qed.

(** C2: a read that arrives when the deadline of its connection has been
    reached is one successful tick.  The score grows by exactly 1; the new
    deadline is the time read by [UpdateTimeout] plus [sec] seconds plus
    [usec] microseconds, with the carry from microseconds moved into the
    seconds, where [sec] lies in [0, max_seconds) and [usec] in
    [0, 1000000); one status line is queued for the client; the set of
    connections, the live sockets and the timer stay as they are and
    nothing is written to standard output.  ([draw_ok] can only hold when
    [max_seconds >= 1]; the score is below [INT_MAX], as [score++]
    requires.) *)
Theorem read_after_deadline_ticks (w : World) (p : SocketPtr) (sock : Socket)
    (n : N) (tv : timeval) (d : draw) (fuel : nat) :
  heap w !! p = Some sock -> (0 < n)%N ->
  wf_timeval tv -> wf_timeval (next_ sock) ->
  micros (next_ sock) <= micros tv ->
  1 <= max_seconds (state w) -> draw_ok (state w) d ->
  score (state w) < INT_MAX -> (1 <= fuel)%nat ->
  exists nx w',
    OnRead begin fuel p n tv d w = Ok w'
    /\ score (state w') = score (state w) + 1
    /\ max_score (state w') = Z.max (score (state w) + 1) (max_score (state w))
    /\ heap w' = <[p := mk_Socket nx (buf_ sock)]> (heap w)
    /\ micros nx = micros (d_now d) + d_sec d * 1000000 + d_usec d
    /\ 0 <= tv_usec nx < 1000000
    /\ 0 <= d_sec d < max_seconds (state w)
    /\ 0 <= d_usec d < 1000000
    /\ trace w' = trace w
         ++ [EWrite (buf_ sock)
               (status_line (d_sec d) (d_usec d)
                  (score (state w')) (max_score (state w')))]
    /\ stdout (trace w') = stdout (trace w)
    /\ sockets (state w') = sockets (state w)
    /\ dom (heap w') = dom (heap w)
    /\ reset_timer (state w') = reset_timer (state w).
Proof.
  intros Hp Hn Htv Hnext Hle _ (Hnow & Hsec & Husec) Hsc Hf.
  assert (Hready : IsReady sock tv = true) by now apply IsReady_micros.
  destruct (OnRead_ready_spec begin fuel p n tv d w sock Hp Hn Hready Hsc Hf
              Hnow Husec) as (nx & Hrun & Hm & Hwf).
  exists nx, (after_tick w p sock nx d). split; [exact Hrun|].
  unfold after_tick.
  cbn [trace state heap sockets score max_score reset_timer].
  unfold seconds_dist, useconds_dist, uniform_int_distribution in *.
  repeat (split; [try done; try lia|]); [| |reflexivity].
  - apply stdout_snoc_write.
  - rewrite dom_insert_L. apply subseteq_union_1_L, singleton_subseteq_l.
    apply elem_of_dom. now exists sock.
Qed.

(** C4: take an epoch, that is a state [w0] of the process in which the
    score is 0, callbacks that are not resets up to [w1], and the reset in
    [w1].  After the reset the maximum is the larger of the maximum at the
    start of the epoch and the score the epoch ended with.
    [ResetAndPrintScore] never changes the maximum, and no callback of the
    process ever lowers it. *)
Theorem max_score_high_water_mark (timeout max_timeout : Z) :
  (forall w0 w1 i w2,
      reachable begin timeout max_timeout w0 -> score (state w0) = 0 ->
      within_epoch begin w0 w1 -> is_reset w1 i = true -> step begin w1 i w2 ->
      max_score (state w2) = Z.max (max_score (state w0)) (score (state w1))
      /\ score (state w2) = 0)
  /\ (forall w, max_score (state (ResetAndPrintScore w)) = max_score (state w))
  /\ (forall w i w',
        reachable begin timeout max_timeout w -> step begin w i w' ->
        max_score (state w) <= max_score (state w')).
Proof.
  split; [|split].
  - intros w0 w1 i w2 Hreach Hz Hepoch Hreset Hstep.
    pose proof (reachable_invariant begin begin_elem _ _ _ Hreach) as H0.
    pose proof (within_epoch_invariant begin begin_elem w0 w1 H0 Hepoch) as (Hwf & _).
    destruct (step_reset_fields begin begin_elem w1 i w2 Hwf Hreset Hstep)
      as (-> & -> & _).
    split; [|reflexivity].
    exact (within_epoch_max begin begin_elem w0 w1 H0 Hz Hepoch).
  - reflexivity.
  - intros w i w' Hreach Hstep.
    pose proof (reachable_invariant begin begin_elem _ _ _ Hreach) as (Hwf & _).
    exact (step_max_score_mono begin begin_elem w i w' Hwf Hstep).
Qed.

(** C5: in every state of the process [reset_timer] is set exactly when a
    connection has been accepted since the last reset (or since the start);
    an accept that finds the timer set leaves it as it is, and neither adds
    nor frees a timer; a callback clears the timer when it is a reset, and
    a callback that is not a reset leaves a set timer as it is. *)
Theorem reset_timer_armed_iff_accepted (timeout max_timeout : Z) :
  (forall w k,
      reachable_counting begin timeout max_timeout w k ->
      is_Some (reset_timer (state w)) <-> (0 < k)%nat)
  /\ (forall w ev fuel p fd d,
        reset_timer (state w) = Some ev ->
        (1 <= fuel)%nat -> wf_timeval (d_now d) -> useconds_dist (d_usec d) ->
        exists w',
          OnAccept fuel p fd d w = Ok w'
          /\ reset_timer (state w') = Some ev
          /\ trace w' = trace w
               ++ [EWrite fd (status_line (d_sec d) (d_usec d)
                                (score (state w)) (max_score (state w)))])
  /\ (forall w i w',
        reachable begin timeout max_timeout w -> step begin w i w' ->
        if is_reset w i then reset_timer (state w') = None
        else reset_timer (state w) = None
             \/ reset_timer (state w') = reset_timer (state w)).
Proof.
  split; [|split].
  - intros w k. apply (counting_timer begin begin_elem).
  - intros w ev fuel p fd d Hev Hf Hnow Husec.
    destruct (OnAccept_spec fuel p fd d w Hf Hnow Husec) as (nx & Hrun & _).
    exists (after_accept w p fd nx d). split; [exact Hrun|].
    unfold after_accept, arm_if_absent. rewrite Hev. now simpl.
  - intros w i w' Hreach Hstep.
    pose proof (reachable_invariant begin begin_elem _ _ _ Hreach) as (Hwf & _).
    destruct (is_reset w i) eqn:Hreset.
    + now destruct (step_reset_fields begin begin_elem w i w' Hwf Hreset Hstep)
        as (_ & _ & ->).
    + destruct (step_other_fields begin begin_elem w i w' Hwf Hreset Hstep)
        as [_ ->].
      destruct (is_accept i); [|now right].
      unfold arm_if_absent.
      destruct (reset_timer (state w)) eqn:E; [right|left]; easy.
Qed.

(** C6: on connect and after every successful tick exactly one status line
    is queued for the client.  It reads ["<sec>.<usec6> <score> <max>\n"]:
    [sec], the whole seconds of the delay just drawn, as an unsigned decimal
    numeral, [usec6], its microseconds, as exactly six decimal digits, and
    the score and the maximum as they stand while the deadline just armed
    is pending: on connect these are the current values, after a tick the
    values that the tick has produced. *)
Theorem status_line_on_connect_and_tick (w : World) (p : SocketPtr) (d : draw)
    (fuel : nat) :
  (1 <= fuel)%nat -> draw_ok (state w) d ->
  (forall sc mx,
      status_line (d_sec d) (d_usec d) sc mx
      = (udec (d_sec d) ++ "." ++ fmt_06d (d_usec d) ++ " " ++ fmt_d sc ++ " "
           ++ fmt_d mx ++ LF)%string)
  /\ (all_digits (udec (d_sec d)) /\ dec_value (udec (d_sec d)) = d_sec d)
  /\ (String.length (fmt_06d (d_usec d)) = 6%nat
      /\ all_digits (fmt_06d (d_usec d))
      /\ dec_value (fmt_06d (d_usec d)) = d_usec d)
  /\ (forall sc, 0 <= sc -> all_digits (fmt_d sc) /\ dec_value (fmt_d sc) = sc)
  /\ (forall fd, exists w',
        OnAccept fuel p fd d w = Ok w'
        /\ written (trace w')
           = written (trace w)
               ++ [(fd, status_line (d_sec d) (d_usec d)
                          (score (state w')) (max_score (state w')))]
        /\ score (state w') = score (state w)
        /\ max_score (state w') = max_score (state w))
  /\ (forall sock n tv,
        heap w !! p = Some sock -> (0 < n)%N -> IsReady sock tv = true ->
        score (state w) < INT_MAX ->
        exists w',
          OnRead begin fuel p n tv d w = Ok w'
          /\ written (trace w')
             = written (trace w)
                 ++ [(buf_ sock, status_line (d_sec d) (d_usec d)
                                   (score (state w')) (max_score (state w')))]
          /\ score (state w') = score (state w) + 1
          /\ max_score (state w')
             = Z.max (score (state w) + 1) (max_score (state w))).
Proof.
  intros Hf (Hnow & Hsec & Husec).
  pose proof Hsec as Hsec'. pose proof Husec as Husec'.
  unfold seconds_dist, useconds_dist, uniform_int_distribution in Hsec', Husec'.
  destruct (fmt_d_nonneg (d_sec d)) as (Heq & Hdig & Hval); [lia|].
  split; [|split; [|split; [|split; [|split]]]].
  - intros sc mx. unfold status_line. now rewrite Heq.
  - rewrite <- Heq. now split.
  - now apply fmt_06d_usec.
  - intros sc Hsc. now destruct (fmt_d_nonneg sc Hsc) as (_ & ? & ?).
  - intros fd.
    destruct (OnAccept_spec fuel p fd d w Hf Hnow Husec) as (nx & Hrun & _).
    exists (after_accept w p fd nx d). split; [exact Hrun|].
    unfold after_accept, arm_if_absent.
    destruct (reset_timer (state w)) eqn:E; simpl;
      (split; [|now split]); unfold written; rewrite !omap_app; simpl;
      reflexivity.
  - intros sock n tv Hp Hn Hready Hsc.
    destruct (OnRead_ready_spec begin fuel p n tv d w sock Hp Hn Hready Hsc Hf
                Hnow Husec) as (nx & Hrun & _).
    exists (after_tick w p sock nx d). split; [exact Hrun|].
    unfold after_tick. cbn [trace state score max_score].
    split; [apply written_snoc_write | now split].
Qed.

(** C8, as the code has it: with [max_seconds = 1],
    [max_before_reset = 60] and both random numbers 0, the client that
    connects is sent ["0.000000 0 0\n"]; a read of at least one byte at any
    time not earlier than the time read at construction is a successful
    tick, not a violation: score and maximum become 1, the client is sent
    ["0.000000 1 1\n"], the connection stays open, the timer stays set and
    nothing is written to standard output. *)
Theorem immediate_read_is_a_tick (p : SocketPtr) (fd : evutil_socket_t)
    (t0 t1 t2 : timeval) (n : N) (fuel : nat) :
  wf_timeval t0 -> wf_timeval t1 -> wf_timeval t2 ->
  micros t0 <= micros t1 -> (0 < n)%N -> (1 <= fuel)%nat ->
  exists w1 w2,
    OnAccept fuel p fd (mk_draw t0 0 0) (initial 1 60) = Ok w1
    /\ trace w1 = [ETimerAdd (mk_timeval 60 0);
                   EWrite fd ("0.000000 0 0" ++ LF)%string]
    /\ OnRead begin fuel p n t1 (mk_draw t2 0 0) w1 = Ok w2
    /\ is_reset w1 (Readable p n t1 (mk_draw t2 0 0)) = false
    /\ trace w2 = trace w1 ++ [EWrite fd ("0.000000 1 1" ++ LF)%string]
    /\ stdout (trace w2) = []
    /\ score (state w2) = 1 /\ max_score (state w2) = 1
    /\ sockets (state w2) = {[p]} /\ is_Some (heap w2 !! p)
    /\ is_Some (reset_timer (state w2)).
Proof.
  intros H0 H1 H2 Hle Hn Hf.
  destruct (OnAccept_spec fuel p fd (mk_draw t0 0 0) (initial 1 60) Hf H0)
    as (nx & Hacc & Hm & Hwf);
    [unfold useconds_dist, uniform_int_distribution; simpl; lia|].
  cbn [d_now d_sec d_usec] in Hm.
  set (w1 := after_accept (initial 1 60) p fd nx (mk_draw t0 0 0)) in *.
  assert (Hp : heap w1 !! p = Some (mk_Socket nx fd)) by apply lookup_insert_eq.
  assert (Hready : IsReady (mk_Socket nx fd) t1 = true).
  { apply IsReady_micros; [exact H1 | exact Hwf | simpl; lia]. }
  destruct (OnRead_ready_spec begin fuel p n t1 (mk_draw t2 0 0) w1
              (mk_Socket nx fd) Hp Hn Hready) as (nx' & Hrun & _);
    [unfold INT_MAX; simpl; lia | exact Hf | exact H2
    |unfold useconds_dist, uniform_int_distribution; simpl; lia|].
  exists w1, (after_tick w1 p (mk_Socket nx fd) nx' (mk_draw t2 0 0)).
  split; [exact Hacc|]. split; [reflexivity|]. split; [exact Hrun|].
  split; [cbn [is_reset]; rewrite Hp, Hready; apply andb_false_r|].
  split; [reflexivity|]. split; [reflexivity|]. split; [reflexivity|].
  split; [reflexivity|]. split; [apply union_empty_r_L|].
  split; [|now eexists].
  exists (mk_Socket nx' fd). apply lookup_insert_eq.
Qed.

(** C9: what libevent delivers when a read on a connection returns
    exactly zero bytes without an error is the event callback with the
    end-of-file flag, so a zero-byte read is handled exactly as a peer
    close: [OnEvent] deletes that connection and no other, the score, the
    maximum and the timer stay as they are, and nothing is written to
    standard output; it is not a tick and not a reset.  The read callback,
    where ticks and violations are judged, is run only for reads of at
    least one byte, on which its assertion [bytes_read > 0] holds. *)
Theorem zero_byte_read_is_peer_close (w : World) (p : SocketPtr)
    (sock : Socket) (tv : timeval) (d : draw) (fuel : nat) :
  heap w !! p = Some sock ->
  (exists w',
      bufferevent_readcb begin fuel p RecvZero tv d w = Ok w'
      /\ OnEvent p BEV_EVENT_EOF w = Ok w'
      /\ heap w' = delete p (heap w)
      /\ (forall q, q ≠ p -> heap w' !! q = heap w !! q)
      /\ sockets (state w') = sockets (state w) ∖ {[p]}
      /\ trace w' = trace w ++ [EDelete p (buf_ sock)]
      /\ stdout (trace w') = stdout (trace w)
      /\ written (trace w') = written (trace w)
      /\ score (state w') = score (state w)
      /\ max_score (state w') = max_score (state w)
      /\ reset_timer (state w') = reset_timer (state w))
  /\ (forall n,
        bufferevent_readcb begin fuel p (RecvBytes n) tv d w
        = (if IsReady sock tv
           then g ← IncreaseScore (state w);
                UpdateTimeout fuel p d (with_state (fun _ => g) w)
           else CloseAllSockets begin fuel w)).
Proof.
  intros Hp. split.
  - exists (after_delete w p sock). cbn [bufferevent_readcb].
    split; [apply (OnEvent_closed p _ w sock Hp); left; discriminate|].
    split; [apply (OnEvent_closed p _ w sock Hp); left; discriminate|].
    unfold after_delete; cbn [heap state trace sockets set_sockets score
                              max_score reset_timer].
    split; [reflexivity|].
    split; [intros q Hq; now apply lookup_delete_ne|].
    split; [reflexivity|]. split; [reflexivity|].
    split; [unfold stdout; rewrite omap_app; apply app_nil_r|].
    split; [unfold written; rewrite omap_app; apply app_nil_r|].
    now repeat split.
  - intros n. cbn [bufferevent_readcb]. unfold OnRead. now rewrite Hp.
Qed.

End Claims.

(** * The claims on the example run *)

Lemma ex_w1_tick begin :
  OnRead begin 1 7%positive 1 ex_t0 ex_d0 ex_w1 = Ok ex_w1_ticked.
Proof. vm_compute. reflexivity. Qed.

Lemma ex_w1_ticked_reset :
  Reset first_element 1 ex_w1_ticked = Ok (after_reset ex_w1_ticked [7%positive]).
Proof. vm_compute. reflexivity. Qed.

Lemma ex_w1_counting begin : reachable_counting begin 1 60 ex_w1 1.
Proof.
  apply (counting_step begin 1 60 (initial 1 60) 0 (Accept 7%positive 4 ex_d0));
    [apply counting_initial|].
  split; [reflexivity | exists 1%nat; exact ex_w1_accept].
Qed.

Lemma ex_epoch : within_epoch first_element (initial 1 60) ex_w1_ticked.
Proof.
  apply (within_epoch_step first_element _ ex_w1
           (Readable 7%positive 1 ex_t0 ex_d0)).
  - apply (within_epoch_step first_element _ (initial 1 60)
             (Accept 7%positive 4 ex_d0)); [apply within_epoch_refl|reflexivity|].
    split; [reflexivity | exists 1%nat; exact ex_w1_accept].
  - reflexivity.
  - split; [now eexists | exists 1%nat; apply ex_w1_tick].
Qed.

Lemma ex_second_ticked_reachable :
  reachable first_element 1 60 ex_second_ticked.
Proof.
  assert (H1 : reachable first_element 1 60 ex_w1_ticked).
  { apply (reachable_step first_element 1 60 ex_w1
             (Readable 7%positive 1 ex_t0 ex_d0)); [apply ex_w1_reachable|].
    split; [now eexists | exists 1%nat; apply ex_w1_tick]. }
  assert (H2 : reachable first_element 1 60 ex_w1_ticked2).
  { apply (reachable_step first_element 1 60 ex_w1_ticked
             (Readable 7%positive 1 ex_t0 ex_d0)); [exact H1|].
    split; [now eexists | exists 1%nat; vm_compute; reflexivity]. }
  assert (H3 : reachable first_element 1 60 ex_idle).
  { apply (reachable_step first_element 1 60 ex_w1_ticked2 TimerExpired);
      [exact H2|].
    split; [now eexists | exists 1%nat; vm_compute; reflexivity]. }
  assert (H4 : reachable first_element 1 60 ex_second).
  { apply (reachable_step first_element 1 60 ex_idle
             (Accept 7%positive 4 ex_d0)); [exact H3|].
    split; [reflexivity | exists 1%nat; vm_compute; reflexivity]. }
  apply (reachable_step first_element 1 60 ex_second
           (Readable 7%positive 1 ex_t0 ex_d0)); [exact H4|].
  split; [now eexists | exists 1%nat; vm_compute; reflexivity].
Qed.

Lemma close_loop_terminates_witness :
  exists w', close_loop first_element 2 ex_w2 = Ok w' /\ heap w' = ∅.
Proof.
  destruct (close_loop_terminates first_element first_element_elem 2 ex_w2)
    as (ps & w' & Hrun & _ & _ & _ & _ & _ & Hheap & _).
  - reflexivity.
  - vm_compute. lia.
  - now exists w'.
Defined.

Lemma reset_coordinator_sequence_witness :
  exists w',
    dispatch first_element 1 TimerExpired ex_second_ticked = Ok w'
    /\ stdout (trace w')
       = [("2 / 2" ++ String "010" EmptyString)%string;
          ("1 / 2" ++ String "010" EmptyString)%string]
    /\ score (state w') = 0 /\ reset_timer (state w') = None.
Proof.
  destruct (reset_coordinator_sequence first_element first_element_elem 1 60
              ex_second_ticked TimerExpired 1)
    as (ps & ev & w' & Hrun & _ & _ & _ & _ & _ & Hout & _ & _ & Hsc & _ & Ht
        & Htext & _).
  - exact ex_second_ticked_reachable.
  - now eexists.
  - reflexivity.
  - vm_compute. lia.
  - exists w'. rewrite Hout, Htext. now repeat split.
Defined.

Lemma read_before_deadline_resets_witness :
  exists w',
    OnRead first_element 2 7%positive 1 (mk_timeval 99 0) ex_d0 ex_w2 = Ok w'
    /\ EDelete 9%positive 5 ∈ trace w' /\ heap w' = ∅.
Proof.
  destruct (read_before_deadline_resets first_element first_element_elem 1 60
              ex_w2 7%positive (mk_Socket ex_t0 4) 1 (mk_timeval 99 0) ex_d0 2)
    as (ps & w' & Hrun & _ & _ & _ & Hall & _ & _ & Hheap & _).
  - apply ex_w2_reachable.
  - reflexivity.
  - reflexivity.
  - unfold wf_timeval; simpl; lia.
  - unfold wf_timeval; simpl; lia.
  - unfold micros; simpl; lia.
  - vm_compute. lia.
  - exists w'. split; [exact Hrun|]. split; [|exact Hheap].
    apply (Hall 9%positive (mk_Socket ex_t0 5)). reflexivity.
Defined.

Lemma read_after_deadline_ticks_witness :
  exists w',
    OnRead first_element 1 7%positive 1 ex_t0 ex_d0 ex_w1 = Ok w'
    /\ score (state w') = 1.
Proof.
  destruct (read_after_deadline_ticks first_element ex_w1 7%positive
              (mk_Socket ex_t0 4) 1 ex_t0 ex_d0 1)
    as (nx & w' & Hrun & Hsc & _).
  - reflexivity.
  - reflexivity.
  - unfold wf_timeval; simpl; lia.
  - unfold wf_timeval; simpl; lia.
  - unfold micros; simpl; lia.
  - simpl; lia.
  - unfold draw_ok, wf_timeval, seconds_dist, useconds_dist,
      uniform_int_distribution; simpl; lia.
  - unfold INT_MAX; simpl; lia.
  - lia.
  - now exists w'.
Defined.

Lemma max_score_high_water_mark_witness :
  max_score (state (after_reset ex_w1_ticked [7%positive]))
  = Z.max (max_score (state (initial 1 60))) (score (state ex_w1_ticked)).
Proof.
  apply (proj1 (max_score_high_water_mark first_element first_element_elem 1 60)
           (initial 1 60) ex_w1_ticked TimerExpired
           (after_reset ex_w1_ticked [7%positive])).
  - apply reachable_initial.
  - reflexivity.
  - exact ex_epoch.
  - reflexivity.
  - split; [now eexists | exists 1%nat; exact ex_w1_ticked_reset].
Defined.

Lemma reset_timer_armed_iff_accepted_witness :
  is_Some (reset_timer (state ex_w1)) <-> (0 < 1)%nat.
Proof.
  apply (proj1 (reset_timer_armed_iff_accepted first_element first_element_elem
                  1 60) ex_w1 1%nat).
  apply ex_w1_counting.
Defined.

Lemma status_line_on_connect_and_tick_witness :
  exists w',
    OnAccept 1 7%positive 4 ex_d0 (initial 1 60) = Ok w'
    /\ written (trace w') = [(4, ("0.000000 0 0" ++ LF)%string)].
Proof.
  destruct (status_line_on_connect_and_tick first_element (initial 1 60)
              7%positive ex_d0 1) as (_ & _ & _ & _ & Hacc & _).
  - lia.
  - unfold draw_ok, wf_timeval, seconds_dist, useconds_dist,
      uniform_int_distribution; simpl; lia.
  - destruct (Hacc 4) as (w' & Hrun & Hw & Hsc & Hmx).
    exists w'. split; [exact Hrun|]. rewrite Hw, Hsc, Hmx. reflexivity.
Defined.

(** C8, as the spec has it, fails: the read that follows the connect at
    once, at the very time read at construction, is not a reset; it leaves
    the score at 1 and the connection open, and ["0 / 0"] is not written. *)
Lemma immediate_read_is_not_a_violation :
  OnAccept 1 7%positive 4 ex_d0 (initial 1 60) = Ok ex_w1
  /\ written (trace ex_w1) = [(4, ("0.000000 0 0" ++ LF)%string)]
  /\ is_reset ex_w1 (Readable 7%positive 1 ex_t0 ex_d0) = false
  /\ OnRead first_element 1 7%positive 1 ex_t0 ex_d0 ex_w1 = Ok ex_w1_ticked
  /\ stdout (trace ex_w1_ticked) = []
  /\ score (state ex_w1_ticked) = 1
  /\ sockets (state ex_w1_ticked) = {[7%positive]}
  /\ ~ (exists w',
          OnRead first_element 1 7%positive 1 ex_t0 ex_d0 ex_w1 = Ok w'
          /\ stdout (trace w') = [result_line 0 0]).
Proof.
  split; [exact ex_w1_accept|]. split; [reflexivity|]. split; [reflexivity|].
  split; [apply ex_w1_tick|]. split; [reflexivity|]. split; [reflexivity|].
  split; [vm_compute; reflexivity|].
  intros (w' & Hrun & Hout). rewrite ex_w1_tick in Hrun.
  injection Hrun as <-. discriminate Hout.
Qed.

Lemma immediate_read_is_a_tick_witness :
  exists w2,
    OnRead first_element 1 7%positive 1 ex_t0 ex_d0 ex_w1 = Ok w2
    /\ stdout (trace w2) = [] /\ score (state w2) = 1.
Proof.
  destruct (immediate_read_is_a_tick first_element 7%positive 4 ex_t0 ex_t0
              ex_t0 1 1)
    as (w1 & w2 & Hacc & _ & Hrun & _ & _ & Hout & Hsc & _);
    try (unfold wf_timeval; simpl; lia); try lia.
  change (mk_draw ex_t0 0 0) with ex_d0 in *.
  rewrite ex_w1_accept in Hacc. injection Hacc as <-.
  now exists w2.
Defined.

Lemma zero_byte_read_is_peer_close_witness :
  exists w',
    bufferevent_readcb first_element 1 7%positive RecvZero ex_t0 ex_d0 ex_w1
    = Ok w'
    /\ heap w' = ∅ /\ score (state w') = 0 /\ stdout (trace w') = [].
Proof.
  destruct (proj1 (zero_byte_read_is_peer_close first_element ex_w1 7%positive
                     (mk_Socket ex_t0 4) ex_t0 ex_d0 1 eq_refl))
    as (w' & Hrun & _ & Hheap & _ & _ & _ & Hout & _ & Hsc & _).
  exists w'. split; [exact Hrun|]. rewrite Hheap, Hsc, Hout.
  now repeat split.
Defined.

(** * Further properties of [loop.cc] *)

(** ** Helper lemmas *)

Lemma testbit_48 n : Z.testbit 48 n = true -> n = 4 \/ n = 5.
Proof.
  intros H. destruct (Z.lt_ge_cases n 0) as [Hneg|Hpos].
  - rewrite Z.testbit_neg_r in H by exact Hneg. discriminate.
  - destruct (Z.lt_ge_cases 5 n) as [Hbig|Hsmall].
    + rewrite Z.bits_above_log2 in H; [discriminate | lia | simpl; lia].
    + assert (Hn : n = 0 \/ n = 1 \/ n = 2 \/ n = 3 \/ n = 4 \/ n = 5) by lia.
      destruct Hn as [->|[->|[->|[->|[->| ->]]]]];
        try discriminate H; [now left | now right].
Qed.

Lemma land_flags_zero events :
  Z.land events (Z.lor BEV_EVENT_ERROR BEV_EVENT_EOF) = 0
  <-> Z.testbit events 4 = false /\ Z.testbit events 5 = false.
Proof.
  change (Z.lor BEV_EVENT_ERROR BEV_EVENT_EOF) with 48. split.
  - intros Hz. split.
    + apply (f_equal (fun z => Z.testbit z 4)) in Hz.
      rewrite Z.land_spec, Z.bits_0 in Hz.
      now apply andb_false_iff in Hz as [Hz|Hz].
    + apply (f_equal (fun z => Z.testbit z 5)) in Hz.
      rewrite Z.land_spec, Z.bits_0 in Hz.
      now apply andb_false_iff in Hz as [Hz|Hz].
  - intros [H4 H5]. apply Z.bits_inj'. intros n Hn.
    rewrite Z.land_spec, Z.bits_0.
    destruct (Z.testbit 48 n) eqn:E; [|apply andb_false_r].
    destruct (testbit_48 n E) as [-> | ->]; [now rewrite H4 | now rewrite H5].
Qed.

Lemma carry_div_mod fuel : forall tv,
  0 <= tv_usec tv -> (Z.to_nat (tv_usec tv / 1000000) <= fuel)%nat ->
  carry fuel tv
  = Ok (mk_timeval (tv_sec tv + tv_usec tv / 1000000) (tv_usec tv mod 1000000)).
Proof.
  unfold carry. induction fuel as [|f IH]; intros [sec usec] Hu Hf;
    cbn [tv_sec tv_usec] in *.
  - assert (Hq : usec / 1000000 = 0).
    { pose proof (Z.div_pos usec 1000000 Hu ltac:(lia)). lia. }
    apply Z.div_small_iff in Hq as [Hq|Hq]; [|lia|lia].
    rewrite while_false
      by (simpl; destruct (Z.geb_spec usec 1000000); [lia | reflexivity]).
    rewrite Z.div_small, Z.mod_small by lia. now rewrite Z.add_0_r.
  - destruct (Z.geb_spec usec 1000000) as [Hge|Hlt].
    + rewrite while_true
        by (simpl; destruct (Z.geb_spec usec 1000000); [reflexivity | lia]).
      cbn [mbind result_bind tv_sec tv_usec].
      assert (Hd : usec / 1000000 = (usec - 1000000) / 1000000 + 1).
      { replace usec with ((usec - 1000000) + 1 * 1000000) at 1 by ring.
        now rewrite Z.div_add by lia. }
      assert (Hm : usec mod 1000000 = (usec - 1000000) mod 1000000).
      { replace usec with ((usec - 1000000) + 1 * 1000000) at 1 by ring.
        now rewrite Z.mod_add by lia. }
      rewrite IH; cbn [tv_sec tv_usec].
      * rewrite Hd, Hm. f_equal. f_equal. ring.
      * lia.
      * pose proof (Z.div_pos (usec - 1000000) 1000000 ltac:(lia) ltac:(lia)).
        lia.
    + rewrite while_false
        by (simpl; destruct (Z.geb_spec usec 1000000); [lia | reflexivity]).
      rewrite Z.div_small, Z.mod_small by lia. now rewrite Z.add_0_r.
Qed.

Lemma UpdateTimeout_inv_wf fuel p d w w' :
  UpdateTimeout fuel p d w = Ok w' ->
  wf_timeval (d_now d) -> useconds_dist (d_usec d) ->
  exists s nx,
    heap w !! p = Some s /\ wf_timeval nx
    /\ w' = mk_World (state w) (<[p := mk_Socket nx (buf_ s)]> (heap w))
              (trace w ++ [EWrite (buf_ s)
                 (status_line (d_sec d) (d_usec d)
                    (score (state w)) (max_score (state w)))]).
Proof.
  intros Hrun Hnow Hus. unfold UpdateTimeout in Hrun.
  destruct (heap w !! p) as [s|] eqn:Hp; [|discriminate].
  apply bind_Ok in Hrun as (tv & Hcarry & Hrun). injection Hrun as <-.
  unfold wf_timeval, useconds_dist, uniform_int_distribution in *.
  destruct (carry_at_most_once (S fuel)
              (mk_timeval (tv_sec (d_now d)) (tv_usec (d_now d) + d_usec d)))
    as (tv' & Hcarry' & _ & Hwf); [lia | simpl; lia |].
  unfold carry in Hcarry, Hcarry'.
  rewrite (while_mono _ _ fuel (S fuel) _ _ Hcarry) in Hcarry' by lia.
  injection Hcarry' as <-.
  exists s, (mk_timeval (tv_sec tv + d_sec d) (tv_usec tv)).
  split; [reflexivity|]. split; [exact Hwf | reflexivity].
Qed.

Section Further.

Variable begin : gset SocketPtr -> SocketPtr.
Hypothesis begin_elem : forall X : gset SocketPtr, X ≠ ∅ -> begin X ∈ X.

Lemma step_config w i w' :
  wf_world w -> step begin w i w' ->
  max_seconds (state w') = max_seconds (state w)
  /\ max_before_reset (state w') = max_before_reset (state w).
Proof.
  intros Hwf Hstep. pose proof (step_inv begin begin_elem w i w' Hwf Hstep) as Hcase.
  destruct i as [p fd d|p n tv d|p events|].
  - destruct Hcase as [nx ->]. unfold after_accept, arm_if_absent; simpl.
    now destruct (reset_timer (state w)).
  - destruct Hcase as (sock & _ & _ & Hcase). destruct (IsReady sock tv).
    + now destruct Hcase as (_ & nx & ->).
    + now destruct Hcase as (ps & _ & ->).
  - now destruct Hcase as [->|(s & _ & ->)].
  - now destruct Hcase as (ps & _ & ->).
Qed.

Lemma step_stdout w i w' :
  wf_world w -> step begin w i w' ->
  stdout (trace w')
  = stdout (trace w)
      ++ (if is_reset w i
          then [result_line (score (state w)) (max_score (state w))]
          else []).
Proof.
  intros Hwf Hstep. pose proof (step_inv begin begin_elem w i w' Hwf Hstep) as Hcase.
  assert (Hreset : forall ps,
             stdout (trace (after_reset w ps))
             = stdout (trace w)
                 ++ [result_line (score (state w)) (max_score (state w))]).
  { intros ps. unfold after_reset, stdout; cbn [trace]. rewrite !omap_app.
    fold (stdout (deletions (heap w) ps)). now rewrite stdout_deletions. }
  destruct i as [p fd d|p n tv d|p events|]; cbn [is_reset].
  - destruct Hcase as [nx ->]. unfold after_accept, stdout; cbn [trace].
    rewrite !omap_app. now destruct (reset_timer (state w)).
  - destruct Hcase as (sock & Hp & Hn & Hcase). rewrite Hp.
    apply N.ltb_lt in Hn. rewrite Hn. destruct (IsReady sock tv); simpl.
    + destruct Hcase as (_ & nx & ->). unfold after_tick; cbn [trace].
      rewrite stdout_snoc_write. now rewrite app_nil_r.
    + destruct Hcase as (ps & _ & ->). apply Hreset.
  - rewrite app_nil_r. destruct Hcase as [->|(s & _ & ->)]; [reflexivity|].
    unfold after_delete, stdout; cbn [trace]. rewrite omap_app. apply app_nil_r.
  - destruct Hcase as (ps & _ & ->). apply Hreset.
Qed.

Lemma step_written w i w' :
  wf_world w -> step begin w i w' ->
  exists lines,
    written (trace w') = written (trace w) ++ lines
    /\ length lines = (if is_accept i || is_tick w i then 1 else 0)%nat.
Proof.
  intros Hwf Hstep. pose proof (step_inv begin begin_elem w i w' Hwf Hstep) as Hcase.
  assert (Hreset : forall ps,
             written (trace (after_reset w ps)) = written (trace w) ++ []).
  { intros ps. unfold after_reset, written; cbn [trace]. rewrite !omap_app.
    simpl. rewrite app_nil_r. f_equal.
    induction ps as [|q ps IH]; [reflexivity | exact IH]. }
  destruct i as [p fd d|p n tv d|p events|]; cbn [is_accept is_tick orb].
  - destruct Hcase as [nx ->]. eexists. unfold after_accept, written; cbn [trace].
    rewrite !omap_app.
    split; [destruct (reset_timer (state w)); simpl; reflexivity | reflexivity].
  - destruct Hcase as (sock & Hp & Hn & Hcase). rewrite Hp.
    apply N.ltb_lt in Hn. rewrite Hn. destruct (IsReady sock tv); simpl.
    + destruct Hcase as (_ & nx & ->). eexists. unfold after_tick; cbn [trace].
      rewrite written_snoc_write. split; reflexivity.
    + destruct Hcase as (ps & _ & ->). exists []. split; [apply Hreset|reflexivity].
  - exists []. split; [|reflexivity]. rewrite app_nil_r.
    destruct Hcase as [->|(s & _ & ->)]; [reflexivity|].
    unfold after_delete, written; cbn [trace]. rewrite omap_app. apply app_nil_r.
  - destruct Hcase as (ps & _ & ->). exists []. split; [apply Hreset|reflexivity].
Qed.

Lemma ticks_reachable timeout max_timeout w k :
  reachable_ticks begin timeout max_timeout w k ->
  reachable begin timeout max_timeout w.
Proof.
  induction 1 as [|w k i w' _ IH Hstep]; [apply reachable_initial|].
  exact (reachable_step begin _ _ w i w' IH Hstep).
Qed.

Lemma ok_reachable timeout max_timeout w :
  reachable_ok begin timeout max_timeout w ->
  reachable begin timeout max_timeout w.
Proof.
  induction 1 as [|w i w' _ IH _ Hstep]; [apply reachable_initial|].
  exact (reachable_step begin _ _ w i w' IH Hstep).
Qed.

Lemma step_score w i w' :
  wf_world w -> step begin w i w' ->
  score (state w')
  = (if is_reset w i then 0
     else if is_tick w i then score (state w) + 1 else score (state w)).
Proof.
  intros Hwf Hstep. pose proof (step_inv begin begin_elem w i w' Hwf Hstep) as Hcase.
  destruct i as [p fd d|p n tv d|p events|]; cbn [is_reset is_tick].
  - destruct Hcase as [nx ->]. unfold after_accept, arm_if_absent; simpl.
    now destruct (reset_timer (state w)).
  - destruct Hcase as (sock & Hp & Hn & Hcase). rewrite Hp.
    apply N.ltb_lt in Hn. rewrite Hn. destruct (IsReady sock tv); simpl.
    + now destruct Hcase as (_ & nx & ->).
    + now destruct Hcase as (ps & _ & ->).
  - now destruct Hcase as [->|(s & _ & ->)].
  - now destruct Hcase as (ps & _ & ->).
Qed.

Lemma step_deadlines w i w' :
  wf_world w -> input_ok w i -> step begin w i w' ->
  (forall q s, heap w !! q = Some s -> wf_timeval (next_ s)) ->
  forall q s, heap w' !! q = Some s -> wf_timeval (next_ s).
Proof.
  intros Hwf Hok [Hen [fuel Hrun]] Hall q s Hq.
  destruct i as [p fd d|p n tv d|p events|]; cbn [dispatch enabled input_ok] in *.
  - destruct Hok as (Hnow & _ & Hus). unfold OnAccept, Start in Hrun.
    apply bind_Ok in Hrun as (w1 & Hup & Hrun). injection Hrun as <-.
    apply UpdateTimeout_inv_wf in Hup as (s0 & nx & _ & Hnx & ->);
      [|exact Hnow|exact Hus].
    cbn [heap with_state Socket_new with_heap] in Hq.
    destruct (decide (q = p)) as [->|Hne].
    + rewrite lookup_insert_eq in Hq. injection Hq as <-. exact Hnx.
    + rewrite !lookup_insert_ne in Hq by congruence.
      apply (Hall q s). now destruct (reset_timer (state w)).
  - destruct Hen as [sock Hp]. destruct Hok as (_ & Hnow & _ & Hus).
    unfold OnRead in Hrun. rewrite Hp in Hrun.
    destruct (0 <? n)%N; [|discriminate].
    destruct (IsReady sock tv).
    + apply bind_Ok in Hrun as (g & _ & Hup).
      apply UpdateTimeout_inv_wf in Hup as (s0 & nx & _ & Hnx & ->);
        [|exact Hnow|exact Hus].
      cbn [heap with_state] in Hq.
      destruct (decide (q = p)) as [->|Hne].
      * rewrite lookup_insert_eq in Hq. injection Hq as <-. exact Hnx.
      * rewrite lookup_insert_ne in Hq by congruence. now apply (Hall q s).
    + apply (CloseAllSockets_inv begin begin_elem) in Hrun as (ps & _ & ->);
        [|exact Hwf].
      cbn [heap after_reset] in Hq. now rewrite lookup_empty in Hq.
  - destruct (OnEvent_inv p events w w' Hen Hrun) as [->|(s0 & _ & ->)];
      [now apply (Hall q s)|].
    cbn [heap after_delete] in Hq.
    apply lookup_delete_Some in Hq as [_ Hq]. now apply (Hall q s).
  - apply (CloseAllSockets_inv begin begin_elem) in Hrun as (ps & _ & ->);
      [|exact Hwf].
    cbn [heap after_reset] in Hq. now rewrite lookup_empty in Hq.
Qed.

Lemma dispatch_run_reachable timeout max_timeout fuel events : forall w w',
  reachable begin timeout max_timeout w ->
  admissible begin fuel events w ->
  event_base_dispatch begin fuel events w = Ok w' ->
  reachable begin timeout max_timeout w'.
Proof.
  induction events as [|i events IH]; intros w w' Hreach Hadm Hrun.
  - injection Hrun as <-. exact Hreach.
  - cbn [event_base_dispatch admissible] in *. destruct Hadm as [Hen Hadm].
    destruct (dispatch begin fuel i w) as [w1|f] eqn:Hd; [|discriminate].
    cbn [mbind result_bind] in Hrun.
    apply (IH w1 w'); [|exact Hadm|exact Hrun].
    apply (reachable_step begin _ _ w i w1 Hreach).
    split; [exact Hen | now exists fuel].
Qed.

Lemma deleted_deletions h ps : deleted (deletions h ps) = ps.
Proof.
  induction ps as [|q ps IH]; [reflexivity|].
  change (deleted (deletions h (q :: ps))) with (q :: deleted (deletions h ps)).
  now rewrite IH.
Qed.

Lemma step_accounting w i w' :
  wf_world w -> step begin w i w' ->
  (length (deleted (trace w')) + size (sockets (state w')))%nat
  = (length (deleted (trace w)) + size (sockets (state w))
     + (if is_accept i then 1 else 0))%nat.
Proof.
  intros Hwf Hstep. pose proof Hstep as [Hen _].
  pose proof (step_inv begin begin_elem w i w' Hwf Hstep) as Hcase.
  assert (Hreset : forall ps, ps ≡ₚ elements (sockets (state w)) ->
             (length (deleted (trace (after_reset w ps)))
              + size (sockets (state (after_reset w ps))))%nat
             = (length (deleted (trace w)) + size (sockets (state w)) + 0)%nat).
  { intros ps Hperm. unfold after_reset, deleted; cbn [trace state sockets].
    rewrite !omap_app. fold (deleted (deletions (heap w) ps)).
    rewrite deleted_deletions, !length_app, size_empty. simpl.
    destruct (perm_elements _ _ Hperm) as (_ & _ & ->). lia. }
  destruct i as [p fd d|p n tv d|p events|]; cbn [is_accept enabled] in *.
  - destruct Hcase as [nx ->]. unfold after_accept, deleted;
      cbn [trace state sockets set_sockets].
    rewrite !omap_app.
    assert (Hnotin : p ∉ sockets (state w)).
    { unfold wf_world in Hwf. rewrite <- Hwf. now apply not_elem_of_dom. }
    rewrite size_union by (now apply disjoint_singleton_l).
    rewrite size_singleton, !length_app.
    destruct (reset_timer (state w)); simpl; lia.
  - destruct Hcase as (sock & Hp & Hn & Hcase). destruct (IsReady sock tv).
    + destruct Hcase as (_ & nx & ->). unfold after_tick, deleted;
        cbn [trace state sockets].
      rewrite omap_app, length_app. simpl. lia.
    + destruct Hcase as (ps & Hperm & ->). now apply Hreset.
  - destruct Hcase as [->|(s & Hp & ->)]; [lia|].
    unfold after_delete, deleted; cbn [trace state sockets set_sockets].
    rewrite omap_app, length_app. simpl.
    assert (Hin : p ∈ sockets (state w)).
    { unfold wf_world in Hwf. rewrite <- Hwf. apply elem_of_dom. now exists s. }
    pose proof (size_difference (sockets (state w)) {[p]}) as Hd.
    rewrite size_singleton in Hd. rewrite Hd by (now apply singleton_subseteq_l).
    assert (size (sockets (state w)) ≠ 0%nat); [|lia].
    intros Hz. apply size_empty_inv in Hz. apply leibniz_equiv in Hz.
    rewrite Hz in Hin. now apply not_elem_of_empty in Hin.
  - destruct Hcase as (ps & Hperm & ->). now apply Hreset.
Qed.

Lemma accepts_reachable timeout max_timeout w n :
  reachable_accepts begin timeout max_timeout w n ->
  reachable begin timeout max_timeout w.
Proof.
  induction 1 as [|w n i w' _ IH Hstep]; [apply reachable_initial|].
  exact (reachable_step begin _ _ w i w' IH Hstep).
Qed.

End Further.

Lemma OnEvent_flagged p events w sock :
  heap w !! p = Some sock ->
  Z.testbit events 4 = true \/ Z.testbit events 5 = true ->
  OnEvent p events w = Ok (after_delete w p sock).
Proof.
  intros Hp Hbits. unfold OnEvent.
  destruct (Z.eqb_spec (Z.land events (Z.lor BEV_EVENT_ERROR BEV_EVENT_EOF)) 0)
    as [E|E]; [|now apply Socket_delete_spec].
  apply land_flags_zero in E as [E4 E5]. destruct Hbits as [H|H]; congruence.
Qed.

Lemma byte_eqb_ne (a b : byte) : a ≠ b -> Byte.eqb a b = false.
Proof.
  intros Hne. destruct (Byte.eqb a b) eqn:E; [|reflexivity].
  now apply Byte.byte_dec_bl in E.
Qed.

Lemma c_str_app pre rest : x00 ∉ pre -> c_str (pre ++ rest) = pre ++ c_str rest.
Proof.
  induction pre as [|b pre IH]; intros Hnul; [reflexivity|].
  apply not_elem_of_cons in Hnul as [Hne Hnul]. simpl.
  rewrite byte_eqb_ne by congruence. now rewrite IH.
Qed.

Lemma existsb_x_absent pre : x78 ∉ pre -> existsb (Byte.eqb x78) pre = false.
Proof.
  induction pre as [|b pre IH]; intros Hx; [reflexivity|].
  apply not_elem_of_cons in Hx as [Hne Hx]. simpl.
  rewrite byte_eqb_ne by exact Hne. now apply IH.
Qed.

Lemma strstr_x_found pre post : x00 ∉ pre -> strstr_x (pre ++ x78 :: post) = true.
Proof.
  intros Hnul. unfold strstr_x. rewrite c_str_app by exact Hnul.
  rewrite existsb_app. simpl. apply orb_true_r.
Qed.

Lemma strstr_x_absent pre rest :
  x00 ∉ pre -> x78 ∉ pre -> rest = [] \/ head rest = Some x00 ->
  strstr_x (pre ++ rest) = false.
Proof.
  intros Hnul Hx Hrest. unfold strstr_x. rewrite c_str_app by exact Hnul.
  assert (Hc : c_str rest = []).
  { destruct Hrest as [->|Hh]; [reflexivity|].
    destruct rest as [|b rest]; [discriminate|]. injection Hh as ->.
    reflexivity. }
  rewrite Hc, app_nil_r. now apply existsb_x_absent.
Qed.

Lemma htons_wraps port k : htons (port + 65536 * k) = htons port.
Proof.
  unfold htons. replace (port + 65536 * k) with (port + k * 65536) by ring.
  now rewrite Z.mod_add by lia.
Qed.

Lemma digits_then_other s1 : forall s2 c1 c2 r1 r2,
  all_digits s1 -> all_digits s2 -> ~ is_digit c1 -> ~ is_digit c2 ->
  (s1 ++ String c1 r1 = s2 ++ String c2 r2)%string ->
  s1 = s2 /\ c1 = c2 /\ r1 = r2.
Proof.
  induction s1 as [|a s1 IH]; intros [|b s2] c1 c2 r1 r2 H1 H2 Hc1 Hc2 Heq;
    simpl in *.
  - injection Heq as -> ->. now repeat split.
  - injection Heq as -> _. now destruct H2.
  - injection Heq as -> _. now destruct H1.
  - injection Heq as -> Heq. destruct H1 as [_ H1], H2 as [_ H2].
    destruct (IH s2 c1 c2 r1 r2 H1 H2 Hc1 Hc2 Heq) as (-> & -> & ->).
    now repeat split.
Qed.

Lemma same_length_prefix s1 : forall s2 r1 r2,
  String.length s1 = String.length s2 ->
  (s1 ++ r1 = s2 ++ r2)%string -> s1 = s2 /\ r1 = r2.
Proof.
  induction s1 as [|a s1 IH]; intros [|b s2] r1 r2 Hlen Heq; simpl in *;
    try discriminate.
  - now split.
  - injection Heq as -> Heq. injection Hlen as Hlen.
    destruct (IH s2 r1 r2 Hlen Heq) as [-> ->]. now split.
Qed.

Lemma fmt_d_inj a b : 0 <= a -> 0 <= b -> fmt_d a = fmt_d b -> a = b.
Proof.
  intros Ha Hb Heq.
  destruct (fmt_d_nonneg a Ha) as (_ & _ & <-).
  destruct (fmt_d_nonneg b Hb) as (_ & _ & <-). now rewrite Heq.
Qed.

(** ** Properties of single functions *)

(** X1: the carry loop of [UpdateTimeout] turns any non-negative number of
    microseconds into its remainder modulo 1000000 and adds the quotient to
    the seconds, within as many iterations as the quotient; a negative
    number of microseconds is left as it is (the loop never borrows). *)
Theorem carry_normalises (fuel : nat) (tv : timeval) :
  (0 <= tv_usec tv -> (Z.to_nat (tv_usec tv / 1000000) <= fuel)%nat ->
   carry fuel tv
   = Ok (mk_timeval (tv_sec tv + tv_usec tv / 1000000)
                    (tv_usec tv mod 1000000)))
  /\ (tv_usec tv < 0 -> carry fuel tv = Ok tv).
Proof.
  split; [apply carry_div_mod|].
  intros Hneg. unfold carry. apply while_false.
  destruct (Z.geb_spec (tv_usec tv) 1000000); [lia | reflexivity].
Qed.

Lemma carry_normalises_witness :
  carry 3 (mk_timeval 10 3500000) = Ok (mk_timeval 13 500000).
Proof.
  apply (proj1 (carry_normalises 3 (mk_timeval 10 3500000)));
    [simpl; lia | vm_compute; lia].
Defined.

(** X2: once a connection is ready it stays ready: if [IsReady] holds at
    some time it holds at every later time, and if it fails at some time it
    fails at every earlier time (all microsecond fields in [0, 1000000)). *)
Theorem IsReady_monotone (s : Socket) (t t' : timeval) :
  wf_timeval t -> wf_timeval t' -> wf_timeval (next_ s) ->
  micros t <= micros t' ->
  (IsReady s t = true -> IsReady s t' = true)
  /\ (IsReady s t' = false -> IsReady s t = false).
Proof.
  intros Ht Ht' Hd Hle.
  assert (Hmono : IsReady s t = true -> IsReady s t' = true).
  { intros H. apply IsReady_micros in H; [|exact Ht|exact Hd].
    apply IsReady_micros; [exact Ht'|exact Hd|lia]. }
  split; [exact Hmono|]. intros H.
  destruct (IsReady s t); [|reflexivity]. rewrite Hmono in H; easy.
Qed.

Lemma IsReady_monotone_witness :
  (IsReady (mk_Socket ex_t0 4) ex_t0 = true
   -> IsReady (mk_Socket ex_t0 4) (mk_timeval 101 0) = true)
  /\ (IsReady (mk_Socket ex_t0 4) (mk_timeval 101 0) = false
      -> IsReady (mk_Socket ex_t0 4) ex_t0 = false).
Proof.
  apply (IsReady_monotone (mk_Socket ex_t0 4) ex_t0 (mk_timeval 101 0));
    unfold wf_timeval, micros; simpl; lia.
Defined.

(** X3: [OnEvent] deletes the connection exactly when the event carries
    [BEV_EVENT_EOF] (bit 4) or [BEV_EVENT_ERROR] (bit 5), whatever the other
    bits are; an event with neither flag (a timeout, a connect notice)
    changes nothing at all. *)
Theorem OnEvent_deletes_iff_flagged (p : SocketPtr) (events : Z) (w : World)
    (sock : Socket) :
  heap w !! p = Some sock ->
  (Z.testbit events 4 = false /\ Z.testbit events 5 = false ->
   OnEvent p events w = Ok w)
  /\ (Z.testbit events 4 = true \/ Z.testbit events 5 = true ->
      OnEvent p events w = Ok (after_delete w p sock)
      /\ heap (after_delete w p sock) !! p = None
      /\ p ∉ sockets (state (after_delete w p sock))).
Proof.
  intros Hp. split.
  - intros Hbits. apply land_flags_zero in Hbits. unfold OnEvent.
    now rewrite Hbits.
  - intros Hbits. split; [|split].
    + unfold OnEvent.
      destruct (Z.eqb_spec (Z.land events (Z.lor BEV_EVENT_ERROR BEV_EVENT_EOF)) 0)
        as [E|E]; [|now apply Socket_delete_spec].
      apply land_flags_zero in E as [E4 E5].
      destruct Hbits as [H|H]; congruence.
    + apply lookup_delete_eq.
    + unfold after_delete; simpl. rewrite not_elem_of_difference. right.
      now apply elem_of_singleton.
Qed.

Lemma OnEvent_deletes_iff_flagged_witness :
  OnEvent 7%positive 64 ex_w1 = Ok ex_w1.
Proof.
  apply (proj1 (OnEvent_deletes_iff_flagged 7%positive 64 ex_w1
                  (mk_Socket ex_t0 4) eq_refl)).
  split; reflexivity.
Defined.

(** X4: the status line determines the four numbers it was printed
    from: two lines that are equal were printed from the same delay, the
    same score and the same maximum (seconds, score and maximum
    non-negative, microseconds in [0, 999999]). *)
Theorem status_line_injective (a b c d a' b' c' d' : Z) :
  0 <= a -> 0 <= a' -> 0 <= b <= 999999 -> 0 <= b' <= 999999 ->
  0 <= c -> 0 <= c' -> 0 <= d -> 0 <= d' ->
  status_line a b c d = status_line a' b' c' d' ->
  a = a' /\ b = b' /\ c = c' /\ d = d'.
Proof.
  intros Ha Ha' Hb Hb' Hc Hc' Hd Hd' Heq. unfold status_line in Heq.
  destruct (fmt_d_nonneg a Ha) as (_ & Da & _).
  destruct (fmt_d_nonneg a' Ha') as (_ & Da' & _).
  destruct (fmt_d_nonneg c Hc) as (_ & Dc & _).
  destruct (fmt_d_nonneg c' Hc') as (_ & Dc' & _).
  destruct (fmt_d_nonneg d Hd) as (_ & Dd & _).
  destruct (fmt_d_nonneg d' Hd') as (_ & Dd' & _).
  destruct (fmt_06d_usec b Hb) as (Lb & _ & Vb).
  destruct (fmt_06d_usec b' Hb') as (Lb' & _ & Vb').
  assert (Hdot : ~ is_digit ".") by (unfold is_digit; vm_compute; intuition congruence).
  assert (Hsp : ~ is_digit " ") by (unfold is_digit; vm_compute; intuition congruence).
  assert (Hlf : ~ is_digit (ascii_of_nat 10))
    by (unfold is_digit; vm_compute; intuition congruence).
  change ("." ++ ?x)%string with (String "." x) in Heq.
  apply (digits_then_other _ _ _ _ _ _ Da Da' Hdot Hdot) in Heq
    as (Hsec & _ & Heq).
  apply same_length_prefix in Heq as [Husec Heq]; [|congruence].
  change (" " ++ ?x)%string with (String " " x) in Heq.
  injection Heq as Heq.
  apply (digits_then_other _ _ _ _ _ _ Dc Dc' Hsp Hsp) in Heq
    as (Hscore & _ & Heq).
  unfold LF in Heq.
  apply (digits_then_other _ _ _ _ _ _ Dd Dd' Hlf Hlf) in Heq as (Hmax & _).
  split; [now apply fmt_d_inj|]. split; [congruence|].
  split; now apply fmt_d_inj.
Qed.

Lemma status_line_injective_witness :
  0 = 0 /\ 999999 = 999999 /\ 1 = 1 /\ 2 = 2.
Proof.
  apply (status_line_injective 0 999999 1 2 0 999999 1 2); try lia.
  reflexivity.
Defined.

(** X5: the delay that [UpdateTimeout] advertises is the delay that
    [IsReady] enforces: after [UpdateTimeout] the connection is ready at a
    time [tv] exactly when [tv] is at least the time read by
    [UpdateTimeout] plus [sec] seconds and [usec] microseconds; at the very
    time of arming it is ready only when both numbers drawn are 0. *)
Theorem deadline_enforced (w : World) (p : SocketPtr) (sock : Socket)
    (d : draw) (tv : timeval) (fuel : nat) :
  heap w !! p = Some sock -> (1 <= fuel)%nat ->
  wf_timeval (d_now d) -> useconds_dist (d_usec d) -> 0 <= d_sec d ->
  wf_timeval tv ->
  exists w' sock',
    UpdateTimeout fuel p d w = Ok w'
    /\ heap w' !! p = Some sock'
    /\ (IsReady sock' tv = true
        <-> micros (d_now d) + d_sec d * 1000000 + d_usec d <= micros tv)
    /\ (IsReady sock' (d_now d) = true <-> d_sec d = 0 /\ d_usec d = 0).
Proof.
  intros Hp Hf Hnow Hus Hsec Htv.
  destruct (UpdateTimeout_spec fuel p d w sock Hp Hf Hnow Hus)
    as (nx & Hrun & Hm & Hwf).
  eexists. exists (mk_Socket nx (buf_ sock)). split; [exact Hrun|].
  split; [apply lookup_insert_eq|].
  unfold useconds_dist, uniform_int_distribution in Hus. split.
  - rewrite IsReady_micros by assumption. cbn [next_]. lia.
  - rewrite IsReady_micros by assumption. cbn [next_]. lia.
Qed.

Lemma deadline_enforced_witness :
  exists w' sock',
    UpdateTimeout 1 7%positive (mk_draw ex_t0 0 250000) ex_w1 = Ok w'
    /\ heap w' !! 7%positive = Some sock'
    /\ (IsReady sock' ex_t0 = true <-> 0 = 0 /\ 250000 = 0).
Proof.
  destruct (deadline_enforced ex_w1 7%positive (mk_Socket ex_t0 4)
              (mk_draw ex_t0 0 250000) ex_t0 1)
    as (w' & sock' & Hrun & Hp & _ & Hnow).
  - reflexivity.
  - lia.
  - unfold wf_timeval; simpl; lia.
  - unfold useconds_dist, uniform_int_distribution; simpl; lia.
  - simpl; lia.
  - unfold wf_timeval; simpl; lia.
  - now exists w', sock'.
Defined.

(** ** Properties of the reactor *)

Section Extras.

Variable begin : gset SocketPtr -> SocketPtr.
Hypothesis begin_elem : forall X : gset SocketPtr, X ≠ ∅ -> begin X ∈ X.

(** X6: between two callbacks, in every state of the process, the set
    [sockets] holds exactly the addresses of the live [Socket] objects, the
    timer is set whenever a connection is live, the score lies between 0
    and the maximum, the maximum is at most [INT_MAX], and the two
    configuration fields still hold the second and third argument of
    [RunLoop]. *)
Theorem reachable_state_invariant (timeout max_timeout : Z) (w : World) :
  reachable begin timeout max_timeout w ->
  dom (heap w) = sockets (state w)
  /\ (sockets (state w) ≠ ∅ -> is_Some (reset_timer (state w)))
  /\ 0 <= score (state w) <= max_score (state w)
  /\ max_score (state w) <= INT_MAX
  /\ max_seconds (state w) = timeout
  /\ max_before_reset (state w) = max_timeout.
Proof.
  intros Hreach.
  pose proof (reachable_invariant begin begin_elem _ _ _ Hreach)
    as (Hwf & Ht & Hs & Hm).
  repeat (split; [assumption || lia|]).
  clear Hwf Ht Hs Hm. induction Hreach as [|w i w' Hreach IH Hstep];
    [now split|].
  pose proof (reachable_invariant begin begin_elem _ _ _ Hreach) as (Hwf & _).
  destruct (step_config begin begin_elem w i w' Hwf Hstep) as [-> ->].
  exact IH.
Qed.

(** X7: a callback writes to standard output exactly when it is a reset,
    and then one line, with the score and the maximum it found; it queues
    text for a client exactly when it is an accept or a tick, and then one
    line. *)
Theorem outputs_of_one_callback (timeout max_timeout : Z) (w : World)
    (i : input) (w' : World) :
  reachable begin timeout max_timeout w -> step begin w i w' ->
  stdout (trace w')
  = stdout (trace w)
      ++ (if is_reset w i
          then [result_line (score (state w)) (max_score (state w))]
          else [])
  /\ exists lines,
       written (trace w') = written (trace w) ++ lines
       /\ length lines = (if is_accept i || is_tick w i then 1 else 0)%nat.
Proof.
  intros Hreach Hstep.
  pose proof (reachable_invariant begin begin_elem _ _ _ Hreach) as (Hwf & _).
  split; [now apply (step_stdout begin begin_elem)
         | now apply (step_written begin begin_elem)].
Qed.

(** X8: in every state of the process the score is the number of
    successful ticks since the last reset (or since the start). *)
Theorem score_counts_ticks (timeout max_timeout : Z) (w : World) (k : nat) :
  reachable_ticks begin timeout max_timeout w k ->
  score (state w) = Z.of_nat k.
Proof.
  induction 1 as [|w k i w' Hticks IH Hstep]; [reflexivity|].
  pose proof (reachable_invariant begin begin_elem _ _ _
                (ticks_reachable begin _ _ _ _ Hticks)) as (Hwf & _).
  rewrite (step_score begin begin_elem w i w' Hwf Hstep).
  destruct (is_reset w i); [reflexivity|].
  destruct (is_tick w i); lia.
Qed.

(** X9: when the clock and the random distributions keep their contracts,
    the deadline of every live connection has its microseconds in
    [0, 1000000), in every state of the process. *)
Theorem deadlines_normalised (timeout max_timeout : Z) (w : World)
    (p : SocketPtr) (s : Socket) :
  reachable_ok begin timeout max_timeout w ->
  heap w !! p = Some s -> wf_timeval (next_ s).
Proof.
  intros Hreach. revert p s.
  induction Hreach as [|w i w' Hreach IH Hok Hstep]; intros p s Hp.
  - cbn [initial heap] in Hp. now rewrite lookup_empty in Hp.
  - pose proof (reachable_invariant begin begin_elem _ _ _
                  (ok_reachable begin _ _ _ Hreach)) as (Hwf & _).
    exact (step_deadlines begin begin_elem w i w' Hwf Hok Hstep IH p s Hp).
Qed.

(** X10: the timer outlives the connections.  When the only live connection
    is closed by its peer the timer stays set, and the timer callback that
    follows still ends the epoch: it deletes nothing, writes the result
    line with the score reached, and frees the timer. *)
Theorem timer_outlives_last_connection (timeout max_timeout : Z) (w : World)
    (p : SocketPtr) (sock : Socket) (events : Z) (fuel : nat) :
  reachable begin timeout max_timeout w ->
  heap w !! p = Some sock -> sockets (state w) = {[p]} ->
  Z.testbit events 4 = true \/ Z.testbit events 5 = true ->
  exists ev w1 w2,
    OnEvent p events w = Ok w1
    /\ sockets (state w1) = ∅ /\ heap w1 = ∅
    /\ reset_timer (state w1) = Some ev
    /\ score (state w1) = score (state w)
    /\ Reset begin fuel w1 = Ok w2
    /\ trace w2 = trace w
         ++ [EDelete p (buf_ sock);
             EStdout (result_line (score (state w)) (max_score (state w)));
             ETimerFree (Some ev)]
    /\ score (state w2) = 0 /\ reset_timer (state w2) = None.
Proof.
  intros Hreach Hp Hset Hbits.
  pose proof (reachable_invariant begin begin_elem _ _ _ Hreach) as (Hwf & Ht & _).
  destruct Ht as [ev Hev].
  { rewrite Hset. intros E. apply (f_equal size) in E.
    rewrite size_singleton, size_empty in E. discriminate. }
  set (w1 := after_delete w p sock).
  assert (Hs1 : sockets (state w1) = ∅).
  { unfold w1, after_delete; simpl. rewrite Hset. apply difference_diag_L. }
  assert (Hwf1 : wf_world w1).
  { unfold wf_world, w1, after_delete; simpl. rewrite dom_delete_L.
    now rewrite Hwf. }
  assert (Hh1 : heap w1 = ∅).
  { apply dom_empty_inv_L. unfold wf_world in Hwf1. now rewrite Hwf1. }
  destruct (CloseAllSockets_spec begin begin_elem fuel w1 Hwf1)
    as (ps & Hperm & Hrun); [rewrite Hs1, size_empty; lia|].
  rewrite Hs1, elements_empty in Hperm. apply Permutation_nil_r in Hperm.
  subst ps.
  exists ev, w1, (after_reset w1 []).
  split; [now apply OnEvent_flagged|]. split; [exact Hs1|].
  split; [exact Hh1|]. split; [exact Hev|]. split; [reflexivity|].
  split; [exact Hrun|]. unfold after_reset, w1, after_delete; simpl.
  rewrite Hev, <- app_assoc. now simpl.
Qed.

(** X11: a connection that is accepted and then closed by its peer leaves
    the live sockets, the set, the score and the maximum as they were
    before the accept; what remains of it is the status line, the deletion
    and a timer that is set. *)
Theorem accept_then_close_restores (w : World) (p : SocketPtr)
    (fd : evutil_socket_t) (d : draw) (events : Z) (fuel : nat) :
  wf_world w -> heap w !! p = None -> (1 <= fuel)%nat ->
  wf_timeval (d_now d) -> useconds_dist (d_usec d) ->
  Z.testbit events 4 = true \/ Z.testbit events 5 = true ->
  exists w1 w2,
    OnAccept fuel p fd d w = Ok w1
    /\ OnEvent p events w1 = Ok w2
    /\ heap w2 = heap w
    /\ sockets (state w2) = sockets (state w)
    /\ score (state w2) = score (state w)
    /\ max_score (state w2) = max_score (state w)
    /\ is_Some (reset_timer (state w2))
    /\ stdout (trace w2) = stdout (trace w)
    /\ written (trace w2)
       = written (trace w)
           ++ [(fd, status_line (d_sec d) (d_usec d)
                      (score (state w)) (max_score (state w)))].
Proof.
  intros Hwf Hfresh Hf Hnow Hus Hbits.
  destruct (OnAccept_spec fuel p fd d w Hf Hnow Hus) as (nx & Hacc & _).
  set (w1 := after_accept w p fd nx d) in *.
  assert (Hp1 : heap w1 !! p = Some (mk_Socket nx fd)) by apply lookup_insert_eq.
  exists w1, (after_delete w1 p (mk_Socket nx fd)).
  split; [exact Hacc|]. split; [now apply OnEvent_flagged|].
  assert (Hnotin : p ∉ sockets (state w)).
  { unfold wf_world in Hwf. rewrite <- Hwf. now apply not_elem_of_dom. }
  unfold w1, after_delete, after_accept, arm_if_absent.
  cbn [state heap trace set_sockets sockets score max_score reset_timer
       max_seconds max_before_reset buf_].
  split; [now apply delete_insert_id|].
  split.
  { destruct (reset_timer (state w)); cbn [sockets set_reset_timer];
      rewrite difference_union_distr_l_L, difference_diag_L, union_empty_l_L;
      now apply difference_disjoint_L, disjoint_singleton_r. }
  destruct (reset_timer (state w)) eqn:E; simpl; rewrite ?E;
    unfold stdout, written; rewrite !omap_app; simpl; rewrite ?app_nil_r;
    repeat (split; [reflexivity || eauto|]); reflexivity.
Qed.

(** X12: after a reset the process is idle: no bufferevent and no timer is
    left, so the only callback that can run next is an accept; that accept
    sets a new timer of [max_before_reset] seconds and starts the next
    epoch with score 0. *)
Theorem after_reset_only_accept (w : World) (fuel : nat) :
  wf_world w -> (size (sockets (state w)) <= fuel)%nat ->
  exists w',
    CloseAllSockets begin fuel w = Ok w'
    /\ (forall i, enabled w' i -> is_accept i = true)
    /\ (forall p fd d fuel',
          (1 <= fuel')%nat -> wf_timeval (d_now d) -> useconds_dist (d_usec d) ->
          exists w'',
            OnAccept fuel' p fd d w' = Ok w''
            /\ reset_timer (state w'')
               = Some (mk_event (mk_timeval (max_before_reset (state w)) 0))
            /\ trace w''
               = trace w'
                   ++ [ETimerAdd (mk_timeval (max_before_reset (state w)) 0);
                       EWrite fd (status_line (d_sec d) (d_usec d) 0
                                    (max_score (state w)))]
            /\ score (state w'') = 0
            /\ sockets (state w'') = {[p]}).
Proof.
  intros Hwf Hsz.
  destruct (CloseAllSockets_spec begin begin_elem fuel w Hwf Hsz)
    as (ps & _ & Hrun).
  exists (after_reset w ps). split; [exact Hrun|]. split.
  - intros [p fd d|p n tv d|p events|]; cbn [enabled is_accept after_reset heap
                                              state reset_timer];
      try reflexivity; intros [x Hx];
      try (rewrite lookup_empty in Hx); discriminate.
  - intros p fd d fuel' Hf Hnow Hus.
    destruct (OnAccept_spec fuel' p fd d (after_reset w ps) Hf Hnow Hus)
      as (nx & Hacc & _).
    eexists. split; [exact Hacc|].
    unfold after_accept, arm_if_absent, after_reset; simpl.
    repeat (split; [reflexivity|]). apply union_empty_r_L.
Qed.

(** X13: no connection is lost and none is deleted twice: in every state
    of the process the number of connections accepted so far is the number
    of deletions performed so far plus the number of connections in the
    set. *)
Theorem connections_accounted (timeout max_timeout : Z) (w : World) (n : nat) :
  reachable_accepts begin timeout max_timeout w n ->
  n = (length (deleted (trace w)) + size (sockets (state w)))%nat.
Proof.
  induction 1 as [|w n i w' Hacc IH Hstep]; [reflexivity|].
  pose proof (reachable_invariant begin begin_elem _ _ _
                (accepts_reachable begin _ _ _ _ Hacc)) as (Hwf & _).
  rewrite (step_accounting begin begin_elem w i w' Hwf Hstep).
  destruct (is_accept i); lia.
Qed.

(** ** The debug build of [OnRead] *)

(** X14: in the debug build a read whose bytes hold an ['x'] in front of
    any NUL shuts the server down whatever the deadline says: every
    connection is deleted, the result line is written, the timer is freed
    and the event loop is told to stop. *)
Theorem OnRead_DEBUG_x_shuts_down (w : World) (p : SocketPtr) (sock : Socket)
    (pre post : list byte) (tv : timeval) (d : draw) (fuel : nat) :
  wf_world w -> heap w !! p = Some sock ->
  x00 ∉ pre -> (N.of_nat (length (pre ++ x78 :: post)) < BUF_SIZE)%N ->
  (size (sockets (state w)) <= fuel)%nat ->
  exists ps,
    NoDup ps /\ (forall q, q ∈ ps <-> q ∈ sockets (state w))
    /\ OnRead_DEBUG begin fuel p (pre ++ x78 :: post) tv d w
       = DebugBreak (Ok (after_reset w ps))
    /\ heap (after_reset w ps) = ∅
    /\ stdout (trace (after_reset w ps))
       = stdout (trace w) ++ [result_line (score (state w)) (max_score (state w))].
Proof.
  intros Hwf Hp Hnul Hlen Hsz.
  destruct (CloseAllSockets_spec begin begin_elem fuel w Hwf Hsz)
    as (ps & Hperm & Hrun).
  destruct (perm_elements _ _ Hperm) as (Hnd & Hin & _).
  exists ps. split; [exact Hnd|]. split; [exact Hin|]. split; [|split].
  - unfold OnRead_DEBUG. rewrite Hp. cbv zeta.
    apply N.leb_gt in Hlen. rewrite Hlen.
    now rewrite strstr_x_found, Hrun.
  - reflexivity.
  - unfold after_reset, stdout; cbn [trace]. rewrite !omap_app.
    fold (stdout (deletions (heap w) ps)). now rewrite stdout_deletions.
Qed.

(** X15: [buf] has room for 8192 bytes and [bufferevent_read] may fill it;
    the debug build then writes the closing NUL at [buf[8192]], one past
    the end.  The write stays inside [buf] exactly when fewer than 8192
    bytes were read. *)
Theorem OnRead_DEBUG_overrun_iff_full (w : World) (p : SocketPtr)
    (sock : Socket) (data : list byte) (tv : timeval) (d : draw) (fuel : nat) :
  heap w !! p = Some sock ->
  (N.of_nat (length data) <= BUF_SIZE)%N ->
  OnRead_DEBUG begin fuel p data tv d w = DebugOverrun
  <-> N.of_nat (length data) = BUF_SIZE.
Proof.
  intros Hp Hle. unfold OnRead_DEBUG. rewrite Hp. cbv zeta.
  destruct (N.leb_spec BUF_SIZE (N.of_nat (length data))) as [Hge|Hlt].
  - split; [lia | reflexivity].
  - split; [|lia]. destruct (strstr_x data); discriminate.
Qed.

(** X16: on a read of at least one and fewer than 8192 bytes with no ['x']
    in front of the first NUL, the debug build does what the default build
    does. *)
Theorem OnRead_DEBUG_agrees_with_default (w : World) (p : SocketPtr)
    (sock : Socket) (pre rest : list byte) (tv : timeval) (d : draw)
    (fuel : nat) :
  heap w !! p = Some sock ->
  x00 ∉ pre -> x78 ∉ pre -> rest = [] \/ head rest = Some x00 ->
  (0 < N.of_nat (length (pre ++ rest)) < BUF_SIZE)%N ->
  OnRead_DEBUG begin fuel p (pre ++ rest) tv d w
  = DebugRest (OnRead begin fuel p (N.of_nat (length (pre ++ rest))) tv d w).
Proof.
  intros Hp Hnul Hx Hrest [Hpos Hlt]. unfold OnRead_DEBUG, OnRead. rewrite Hp.
  cbv zeta. apply N.leb_gt in Hlt. rewrite Hlt.
  rewrite strstr_x_absent by assumption.
  apply N.ltb_lt in Hpos. now rewrite Hpos.
Qed.

(** X17: a read of zero bytes, on which the default build stops at its
    assertion, is judged by the deadline in the debug build: before the
    deadline it resets everything, otherwise it counts as a tick. *)
Theorem OnRead_DEBUG_empty_read_is_judged (w : World) (p : SocketPtr)
    (sock : Socket) (tv : timeval) (d : draw) (fuel : nat) :
  wf_world w -> heap w !! p = Some sock ->
  (1 <= fuel)%nat -> (size (sockets (state w)) <= fuel)%nat ->
  wf_timeval (d_now d) -> useconds_dist (d_usec d) ->
  score (state w) < INT_MAX ->
  OnRead begin fuel p 0 tv d w = Fault AssertionFailed
  /\ (IsReady sock tv = false ->
      exists ps, OnRead_DEBUG begin fuel p [] tv d w
                 = DebugRest (Ok (after_reset w ps)))
  /\ (IsReady sock tv = true ->
      exists nx, OnRead_DEBUG begin fuel p [] tv d w
                 = DebugRest (Ok (after_tick w p sock nx d))).
Proof.
  intros Hwf Hp Hf Hsz Hnow Hus Hsc.
  split; [now apply (OnRead_empty begin fuel p tv d w sock)|].
  unfold OnRead_DEBUG. rewrite Hp. cbv zeta. cbn [length N.of_nat].
  change (BUF_SIZE <=? 0)%N with false. change (strstr_x []) with false.
  cbv iota. split; intros Hready; rewrite Hready.
  - destruct (CloseAllSockets_spec begin begin_elem fuel w Hwf Hsz)
      as (ps & _ & Hrun).
    exists ps. now rewrite Hrun.
  - destruct (OnRead_ready_spec begin fuel p 1 tv d w sock Hp ltac:(lia) Hready
                Hsc Hf Hnow Hus) as (nx & Hrun & _).
    exists nx. unfold OnRead in Hrun. rewrite Hp, Hready in Hrun.
    cbn [N.ltb N.compare] in Hrun. now rewrite Hrun.
Qed.

(** ** [RunLoop] *)

(** X18: [RunLoop] returns 1 exactly when [event_base_new] or
    [evconnlistener_new_bind] fails.  It has then written one line to
    [std::cerr] and run no callback, and it has asked for a listener only if
    the event base existed; after a successful startup it writes nothing to
    [std::cerr]. *)
Theorem RunLoop_startup_failure (fuel : nat) (port timeout max_timeout : Z)
    (env : startup) (events : list input) :
  let r := RunLoop begin fuel port timeout max_timeout env events in
  ((exists w, returned r = Ok (1, w))
   <-> base_created env = false \/ listener_bound env = false)
  /\ (base_created env = false \/ listener_bound env = false ->
      returned r = Ok (1, initial timeout max_timeout)
      /\ length (cerr r) = 1%nat
      /\ (sin_port r = None <-> base_created env = false))
  /\ (base_created env = true -> listener_bound env = true -> cerr r = []).
Proof.
  unfold RunLoop. destruct env as [[] []]; cbn [base_created listener_bound negb];
    cbv zeta; cbn [returned cerr sin_port length].
  - split; [|split; [intros [H|H]; discriminate | reflexivity]].
    split; [|intros [H|H]; discriminate].
    intros [w H]. destruct (event_base_dispatch _ _ _ _); discriminate.
  - split; [|split; [|discriminate]].
    + split; [now right | now eexists].
    + intros _. repeat split; discriminate.
  - split; [|split; [|discriminate]].
    + split; [now left | now eexists].
    + intros _. repeat split; reflexivity.
  - split; [|split; [|discriminate]].
    + split; [now left | now eexists].
    + intros _. repeat split; reflexivity.
Qed.

(** X19: the port is converted from [int] to [uint16_t] on its way into
    [htons]: ports that differ by a multiple of 65536 give the same run, and
    the two bytes handed to the listener are the big-endian form of the port
    modulo 65536. *)
Theorem RunLoop_port_wraps (fuel : nat) (port k timeout max_timeout : Z)
    (env : startup) (events : list input) :
  RunLoop begin fuel (port + 65536 * k) timeout max_timeout env events
  = RunLoop begin fuel port timeout max_timeout env events
  /\ 0 <= fst (htons port) < 256 /\ 0 <= snd (htons port) < 256
  /\ 256 * fst (htons port) + snd (htons port) = port mod 65536.
Proof.
  split; [unfold RunLoop; now rewrite htons_wraps|].
  unfold htons; cbn [fst snd].
  pose proof (Z.mod_pos_bound port 65536 ltac:(lia)) as Hb.
  pose proof (Z.mod_pos_bound (port mod 65536) 256 ltac:(lia)).
  pose proof (Z.div_mod (port mod 65536) 256 ltac:(lia)).
  split; [split; [apply Z.div_pos; lia | apply Z.div_lt_upper_bound; lia]|].
  split; lia.
Qed.

(** X20: after a successful startup the loop starts from the state with
    score 0, no timer and no connection, [timeout] as the delay bound and
    [max_timeout] as the reset interval; when its callbacks have all run,
    [RunLoop] returns 0, and the state it ends in is a state of the process
    as described by [reachable]. *)
Theorem RunLoop_runs_the_reactor (fuel : nat) (port timeout max_timeout : Z)
    (env : startup) (events : list input) (w : World) :
  base_created env = true -> listener_bound env = true ->
  admissible begin fuel events (initial timeout max_timeout) ->
  event_base_dispatch begin fuel events (initial timeout max_timeout) = Ok w ->
  returned (RunLoop begin fuel port timeout max_timeout env events) = Ok (0, w)
  /\ reachable begin timeout max_timeout w
  /\ max_seconds (state w) = timeout
  /\ max_before_reset (state w) = max_timeout.
Proof.
  intros Hb Hl Hadm Hrun. unfold RunLoop. rewrite Hb, Hl. cbn [negb returned].
  rewrite Hrun. split; [reflexivity|].
  assert (Hreach : reachable begin timeout max_timeout w).
  { apply (dispatch_run_reachable begin timeout max_timeout fuel events
             (initial timeout max_timeout) w);
      [apply reachable_initial | exact Hadm | exact Hrun]. }
  split; [exact Hreach|].
  clear Hadm Hrun. induction Hreach as [|w i w' Hreach IH Hstep]; [now split|].
  pose proof (reachable_invariant begin begin_elem _ _ _ Hreach) as (Hwf & _).
  destruct (step_config begin begin_elem w i w' Hwf Hstep) as [-> ->].
  exact IH.
Qed.

End Extras.

(** ** The properties on the example run *)

Lemma ex_w1_sockets : sockets (state ex_w1) = {[7%positive]}.
Proof. apply union_empty_r_L. Qed.

Lemma ex_w1_wf : wf_world ex_w1.
Proof.
  now destruct (reachable_invariant first_element first_element_elem 1 60 ex_w1
                  (ex_w1_reachable first_element)).
Qed.

Lemma ex_w2_wf : wf_world ex_w2.
Proof.
  now destruct (reachable_invariant first_element first_element_elem 1 60 ex_w2
                  (ex_w2_reachable first_element)).
Qed.

Lemma ex_d0_ok : draw_ok (state (initial 1 60)) ex_d0.
Proof.
  unfold draw_ok, wf_timeval, seconds_dist, useconds_dist,
    uniform_int_distribution; simpl; lia.
Qed.

Lemma ex_tick_step :
  step first_element ex_w1 (Readable 7%positive 1 ex_t0 ex_d0) ex_w1_ticked.
Proof. split; [now eexists | exists 1%nat; apply ex_w1_tick]. Qed.

Lemma ex_accept_step :
  step first_element (initial 1 60) (Accept 7%positive 4 ex_d0) ex_w1.
Proof. split; [reflexivity | exists 1%nat; exact ex_w1_accept]. Qed.

Lemma reachable_state_invariant_witness :
  dom (heap ex_w2) = sockets (state ex_w2) /\ max_seconds (state ex_w2) = 1.
Proof.
  destruct (reachable_state_invariant first_element first_element_elem 1 60
              ex_w2 (ex_w2_reachable first_element))
    as (Hdom & _ & _ & _ & Hms & _).
  now split.
Defined.

Lemma outputs_of_one_callback_witness :
  stdout (trace ex_w1_ticked) = stdout (trace ex_w1) ++ [].
Proof.
  apply (proj1 (outputs_of_one_callback first_element first_element_elem 1 60
                  ex_w1 (Readable 7%positive 1 ex_t0 ex_d0) ex_w1_ticked
                  (ex_w1_reachable first_element) ex_tick_step)).
Defined.

Lemma score_counts_ticks_witness : score (state ex_w1_ticked) = Z.of_nat 1.
Proof.
  apply (score_counts_ticks first_element first_element_elem 1 60).
  apply (ticks_step first_element 1 60 ex_w1 0
           (Readable 7%positive 1 ex_t0 ex_d0) ex_w1_ticked);
    [|exact ex_tick_step].
  apply (ticks_step first_element 1 60 (initial 1 60) 0
           (Accept 7%positive 4 ex_d0) ex_w1);
    [apply ticks_initial | exact ex_accept_step].
Defined.

Lemma deadlines_normalised_witness : wf_timeval (next_ (mk_Socket ex_t0 4)).
Proof.
  apply (deadlines_normalised first_element first_element_elem 1 60 ex_w1
           7%positive (mk_Socket ex_t0 4)); [|reflexivity].
  apply (ok_step first_element 1 60 (initial 1 60) (Accept 7%positive 4 ex_d0));
    [apply ok_initial | exact ex_d0_ok | exact ex_accept_step].
Defined.

Lemma timer_outlives_last_connection_witness :
  exists ev w1 w2,
    OnEvent 7%positive 16 ex_w1 = Ok w1
    /\ reset_timer (state w1) = Some ev
    /\ Reset first_element 0 w1 = Ok w2 /\ reset_timer (state w2) = None.
Proof.
  destruct (timer_outlives_last_connection first_element first_element_elem
              1 60 ex_w1 7%positive (mk_Socket ex_t0 4) 16 0)
    as (ev & w1 & w2 & Hev & _ & _ & Ht & _ & Hrun & _ & _ & Hnone).
  - apply ex_w1_reachable.
  - reflexivity.
  - exact ex_w1_sockets.
  - left. reflexivity.
  - now exists ev, w1, w2.
Defined.

Lemma accept_then_close_restores_witness :
  exists w1 w2,
    OnAccept 1 7%positive 4 ex_d0 (initial 1 60) = Ok w1
    /\ OnEvent 7%positive 16 w1 = Ok w2
    /\ heap w2 = heap (initial 1 60).
Proof.
  destruct (accept_then_close_restores (initial 1 60) 7%positive 4 ex_d0 16 1)
    as (w1 & w2 & Hacc & Hev & Hheap & _).
  - apply dom_empty_L.
  - reflexivity.
  - lia.
  - unfold wf_timeval; simpl; lia.
  - unfold useconds_dist, uniform_int_distribution; simpl; lia.
  - left. reflexivity.
  - now exists w1, w2.
Defined.

Lemma after_reset_only_accept_witness :
  exists w',
    CloseAllSockets first_element 2 ex_w2 = Ok w'
    /\ (forall i, enabled w' i -> is_accept i = true).
Proof.
  destruct (after_reset_only_accept first_element first_element_elem ex_w2 2)
    as (w' & Hrun & Honly & _).
  - exact ex_w2_wf.
  - vm_compute. lia.
  - now exists w'.
Defined.

Lemma OnRead_DEBUG_x_shuts_down_witness :
  exists ps,
    OnRead_DEBUG first_element 1 7%positive [x68; x78] ex_t0 ex_d0 ex_w1
    = DebugBreak (Ok (after_reset ex_w1 ps)).
Proof.
  destruct (OnRead_DEBUG_x_shuts_down first_element first_element_elem ex_w1
              7%positive (mk_Socket ex_t0 4) [x68] [] ex_t0 ex_d0 1)
    as (ps & _ & _ & Hrun & _).
  - exact ex_w1_wf.
  - reflexivity.
  - intros H. apply list_elem_of_singleton in H. discriminate.
  - reflexivity.
  - vm_compute. lia.
  - now exists ps.
Defined.

Lemma OnRead_DEBUG_overrun_iff_full_witness :
  OnRead_DEBUG first_element 1 7%positive [x68] ex_t0 ex_d0 ex_w1 = DebugOverrun
  <-> N.of_nat (length [x68]) = BUF_SIZE.
Proof.
  apply (OnRead_DEBUG_overrun_iff_full first_element ex_w1 7%positive
           (mk_Socket ex_t0 4) [x68] ex_t0 ex_d0 1);
    [reflexivity | vm_compute; discriminate].
Defined.

Lemma OnRead_DEBUG_agrees_with_default_witness :
  OnRead_DEBUG first_element 1 7%positive ([x68; x69] ++ []) ex_t0 ex_d0 ex_w1
  = DebugRest
      (OnRead first_element 1 7%positive
         (N.of_nat (length ([x68; x69] ++ []))) ex_t0 ex_d0 ex_w1).
Proof.
  apply (OnRead_DEBUG_agrees_with_default first_element ex_w1 7%positive
           (mk_Socket ex_t0 4) [x68; x69] [] ex_t0 ex_d0 1).
  - reflexivity.
  - intros H. apply elem_of_cons in H as [H|H]; [discriminate|].
    apply list_elem_of_singleton in H. discriminate.
  - intros H. apply elem_of_cons in H as [H|H]; [discriminate|].
    apply list_elem_of_singleton in H. discriminate.
  - now left.
  - split; reflexivity.
Defined.

Lemma OnRead_DEBUG_empty_read_is_judged_witness :
  OnRead first_element 1 7%positive 0 ex_t0 ex_d0 ex_w1 = Fault AssertionFailed.
Proof.
  apply (proj1 (OnRead_DEBUG_empty_read_is_judged first_element
                  first_element_elem ex_w1 7%positive (mk_Socket ex_t0 4)
                  ex_t0 ex_d0 1 ex_w1_wf eq_refl ltac:(lia)
                  ltac:(vm_compute; lia)
                  ltac:(unfold wf_timeval; simpl; lia)
                  ltac:(unfold useconds_dist, uniform_int_distribution; simpl; lia)
                  ltac:(unfold INT_MAX; simpl; lia))).
Defined.

Lemma RunLoop_runs_the_reactor_witness :
  returned (RunLoop first_element 1 8080 1 60 (mk_startup true true)
              [Accept 7%positive 4 ex_d0])
  = Ok (0, ex_w1).
Proof.
  apply (proj1 (RunLoop_runs_the_reactor first_element first_element_elem 1
                  8080 1 60 (mk_startup true true) [Accept 7%positive 4 ex_d0]
                  ex_w1 eq_refl eq_refl
                  (conj eq_refl I) eq_refl)).
Defined.

Lemma connections_accounted_witness :
  1%nat = (length (deleted (trace ex_w1)) + size (sockets (state ex_w1)))%nat.
Proof.
  apply (connections_accounted first_element first_element_elem 1 60 ex_w1 1).
  apply (accepts_step first_element 1 60 (initial 1 60) 0
           (Accept 7%positive 4 ex_d0) ex_w1);
    [apply accepts_initial | exact ex_accept_step].
Defined.
